(** * activity-2: a PINN for the 1D heat equation

    A shallow embedding of [notebooks/activity-2.ipynb] and the properties of
    it that can be stated over that embedding.

    The notebook is a Python script split in cells.  Its own code is embedded
    function by function, under the names the notebook gives them.  The
    library routines it calls (numpy, scipy.stats.qmc, torch) are embedded
    under the name of their library, from their documented behaviour; what is
    random in them (generator draws, shuffles) is an explicit argument.

    Numbers.  The code that is plain arithmetic is written once, over an
    interface [Scalar], and read at two instances: the real numbers (exact
    arithmetic) and IEEE 754 binary32 (what [.float()] tensors hold). *)

From Stdlib Require Import String List ZArith Arith Bool Lia.
From Stdlib Require Import Reals Lra Permutation.
From Stdlib Require Import Floats.SpecFloat.
Import ListNotations.

Set Implicit Arguments.
Set Warnings "-register-all,-abstract-large-number".

(* ================================================================= *)
(** * Python: exceptions and the two monads of the script *)

Module Py.

(** The exceptions the modelled code can meet.  All of them are Python's or
    a library's: the notebook declares no exception class. *)
Inductive exn : Type :=
| NameError (name : string)
| IndexError
| TypeError
| AttributeError
| ValueError (origin : string)
| RuntimeError (origin : string).

(** The outcome of evaluating an expression. *)
Inductive result (A : Type) : Type :=
| Ok (a : A)
| Raise (e : exn).

Arguments Ok {A} a.
Arguments Raise {A} e.

Class Monad (m : Type -> Type) : Type := {
  ret : forall {A}, A -> m A;
  bind : forall {A B}, m A -> (A -> m B) -> m B
}.

#[export] Instance result_monad : Monad result := {
  ret := fun A a => Ok a;
  bind := fun A B c k => match c with Ok a => k a | Raise e => Raise e end
}.

(** Statements run against the interpreter state [S].  The state a statement
    leaves behind survives an exception: a list appended to before the
    failing call keeps its new elements. *)
Definition stmt (S A : Type) : Type := S -> S * result A.

#[export] Instance stmt_monad (S : Type) : Monad (stmt S) := {
  ret := fun A a s => (s, Ok a);
  bind := fun A B c k s =>
    match c s with
    | (s', Ok a) => k a s'
    | (s', Raise e) => (s', Raise e)
    end
}.

(** An expression evaluated inside a statement. *)
Definition lift {S A : Type} (r : result A) : stmt S A := fun s => (s, r).

Definition get {S : Type} : stmt S S := fun s => (s, Ok s).

Definition modify {S : Type} (f : S -> S) : stmt S unit := fun s => (f s, Ok tt).

(** [for i in idx: body(i)], with no [break], [continue] or [else]. *)
Fixpoint for_in {S : Type} (idx : list nat) (body : nat -> stmt S unit) : stmt S unit :=
  match idx with
  | [] => ret tt
  | i :: rest => bind (body i) (fun _ => for_in rest body)
  end.

(** [range(n)] *)
Definition range (n : nat) : list nat := seq 0 n.

(** [xs[i]] for a non-negative index *)
Definition getitem {A : Type} (xs : list A) (i : nat) : result A :=
  match nth_error xs i with
  | Some a => Ok a
  | None => Raise IndexError
  end.

(** [xs[-k]] for [k >= 1] *)
Definition getitem_neg {A : Type} (xs : list A) (k : nat) : result A :=
  if (k <=? length xs) then getitem xs (length xs - k) else Raise IndexError.

(** [xs[:-k]] *)
Definition slice_to_neg {A : Type} (xs : list A) (k : nat) : list A :=
  firstn (length xs - k) xs.

(** [[f(x, y) for x, y in zip(xs, ys)]] *)
Fixpoint zip_with {A B C : Type} (f : A -> B -> C) (xs : list A) (ys : list B) : list C :=
  match xs, ys with
  | x :: xs', y :: ys' => f x y :: zip_with f xs' ys'
  | _, _ => []
  end.

End Py.

Export Py.

Notation "x <- c1 ;; c2" := (bind c1 (fun x => c2))
  (at level 61, c1 at next level, right associativity).
Notation "c1 ;; c2" := (bind c1 (fun _ => c2))
  (at level 61, right associativity).

(* ================================================================= *)
(** * Scalars *)

(** The arithmetic the notebook's own functions use. *)
Class Scalar (F : Type) : Type := {
  fzero : F;
  fone : F;
  fadd : F -> F -> F;
  fsub : F -> F -> F;
  fmul : F -> F -> F;
  fdiv : F -> F -> F;
  fsqrt : F -> F
}.

(** Exact arithmetic. *)
#[export] Instance R_scalar : Scalar R := {
  fzero := 0%R;
  fone := 1%R;
  fadd := Rplus;
  fsub := Rminus;
  fmul := Rmult;
  fdiv := Rdiv;
  fsqrt := sqrt
}.

(** IEEE 754 binary32, the [torch.float32] of [.float()]: 24 bits of
    precision, exponents up to 128. *)
Definition binary32 : Type := spec_float.

Definition prec32 : Z := 24.
Definition emax32 : Z := 128.

#[export] Instance binary32_scalar : Scalar binary32 := {
  fzero := S754_zero false;
  fone := SFone prec32 emax32;
  fadd := SFadd prec32 emax32;
  fsub := SFsub prec32 emax32;
  fmul := SFmul prec32 emax32;
  fdiv := SFdiv prec32 emax32;
  fsqrt := SFsqrt prec32 emax32
}.

(** [math.isfinite]: neither an infinity nor a NaN. *)
Definition is_finite (x : binary32) : bool :=
  match x with
  | S754_zero _ | S754_finite _ _ _ => true
  | S754_infinity _ | S754_nan => false
  end.

(** [x == 0.0] (either sign) *)
Definition is_zero (x : binary32) : bool :=
  match x with
  | S754_zero _ => true
  | _ => false
  end.

(* ================================================================= *)
(** * torch: tensors *)

Module torch.

(** A tensor is represented by its data in row-major order.  That is all a
    full reduction such as [torch.norm(., p=2)] reads, and two tensors of one
    shape are subtracted position by position.  Shapes are not kept: of
    torch's broadcasting only the one-dimensional rule is modelled. *)
Definition tensor (F : Type) : Type := list F.

(** [a - b].  Operands of one size are subtracted elementwise; a one-element
    operand is broadcast; any other pair of (one-dimensional) sizes is
    refused by torch. *)
Definition sub {F : Type} `{Scalar F} (a b : tensor F) : result (tensor F) :=
  if (length a =? length b) then Ok (zip_with fsub a b)
  else match a, b with
       | [x], _ => Ok (map (fun y => fsub x y) b)
       | _, [y] => Ok (map (fun x => fsub x y) a)
       | _, _ => Raise (RuntimeError "sub: sizes do not match")
       end.

(** [torch.norm(t, p=2)] with no [dim]: the square root of the sum of the
    squares of all elements. *)
Definition norm {F : Type} `{Scalar F} (t : tensor F) : F :=
  fsqrt (fold_left (fun acc x => fadd acc (fmul x x)) t fzero).

(** [torch.cat([a, b], dim=1)] of two column tensors of shape (N, 1): the
    (N, 2) tensor whose row [k] is [(a[k], b[k])].  torch refuses operands
    whose sizes differ outside dimension 1. *)
Definition cat_dim1 {F : Type} (a b : tensor F) : result (list (F * F)) :=
  if (length a =? length b) then Ok (combine a b)
  else Raise (RuntimeError "cat: sizes do not match").

End torch.

(* ================================================================= *)
(** * Cell 3: [relative_l2_error] *)

(** <<
    def relative_l2_error(u_num, u_ref):
        l2_diff = torch.norm(u_num - u_ref, p=2)
        l2_ref = torch.norm(u_ref, p=2)
        relative_l2 = l2_diff / l2_ref
        return relative_l2
    >> *)
Definition relative_l2_error {F : Type} `{Scalar F} (u_num u_ref : torch.tensor F) : result F :=
  diff <- torch.sub u_num u_ref ;;
  let l2_diff := torch.norm diff in
  let l2_ref := torch.norm u_ref in
  let relative_l2 := fdiv l2_diff l2_ref in
  ret relative_l2.

(** The claim's words, over the reals: the Euclidean norm of a vector is the
    square root of the sum of the squares of its coordinates. *)
Definition euclidean_norm (v : list R) : R :=
  sqrt (fold_right Rplus 0%R (map Rsqr v)).

(** The coordinatewise difference of two vectors of one length. *)
Definition vector_difference (u v : list R) : list R :=
  map (fun p => (fst p - snd p)%R) (combine u v).

(** Sizes that [-] accepts. *)
Definition broadcastable {A : Type} (a b : list A) : Prop :=
  length a = length b \/ length a = 1 \/ length b = 1.

(** 1.5, 3.0 and 4.0 in binary32 *)
Definition three_halves : binary32 := S754_finite false 12582912 (-23).
Definition three : binary32 := S754_finite false 12582912 (-22).
Definition four : binary32 := S754_finite false 8388608 (-21).

(* ================================================================= *)
(** * numpy, in exact arithmetic *)

Module np.

Local Open Scope R_scope.

(** A two-dimensional array, as the list of its rows. *)
Definition array2 : Type := list (list R).

(** [np.linspace(start, stop, num)] with the default [endpoint=True]:
    [arange(0, num) * step + start] with [step = (stop - start) / (num - 1)],
    the last element then overwritten with [stop].  For [num <= 1] there is
    no step and the array is [arange(0, num) * (stop - start) + start]. *)
Definition linspace (start stop : R) (num : nat) : list R :=
  let div := (num - 1)%nat in
  let delta := stop - start in
  let step := delta / INR div in
  let y := map (fun i => if (0 <? div)%nat then INR i * step + start
                         else INR i * delta + start) (seq 0 num) in
  if (1 <? num)%nat then firstn (num - 1) y ++ [stop] else y.

(** [X, T = np.meshgrid(x, t)] with the default [indexing='xy']: both have
    one row per element of [t] and one column per element of [x], with
    [X[i][j] = x[j]] and [T[i][j] = t[i]]. *)
Definition meshgrid (x t : list R) : array2 * array2 :=
  (map (fun _ => x) t, map (fun ti => map (fun _ => ti) x) t).

(** Elementwise functions on arrays of one shape. *)
Definition ufunc1 (f : R -> R) (a : array2) : array2 := map (map f) a.

Definition ufunc2 (f : R -> R -> R) (a b : array2) : array2 :=
  zip_with (zip_with f) a b.

Definition negative : array2 -> array2 := ufunc1 Ropp.
Definition exp : array2 -> array2 := ufunc1 Rtrigo_def.exp.
Definition sin : array2 -> array2 := ufunc1 Rtrigo_def.sin.
Definition pi : R := PI.
Definition scalar_multiply (c : R) : array2 -> array2 := ufunc1 (Rmult c).
Definition multiply : array2 -> array2 -> array2 := ufunc2 Rmult.

(** [a[i][j]] *)
Definition item2 (a : array2) (i j : nat) : R := nth j (nth i a []) 0.

(** [a[:, j]] *)
Definition column (a : array2) (j : nat) : list R := map (fun row => nth j row 0) a.

End np.

(* ================================================================= *)
(** * Cell 5: the analytical solution on a uniform mesh *)

(** <<
    def analytic_diffusion(x,t):
        u = np.exp(-t)*np.sin(np.pi*x)
        return u
    >>
    The function is called on arrays; the same expression on two numbers is
    [analytic_diffusion_at]. *)
Definition analytic_diffusion (x t : np.array2) : np.array2 :=
  let u := np.multiply (np.exp (np.negative t)) (np.sin (np.scalar_multiply np.pi x)) in
  u.

Definition analytic_diffusion_at (x t : R) : R :=
  (Rtrigo_def.exp (- t) * Rtrigo_def.sin (np.pi * x))%R.

Definition dom_samples : nat := 100.

(** [x = np.linspace(-1, 1, dom_samples)] *)
Definition x_mesh : list R := np.linspace (-1) 1 dom_samples.

(** [t = np.linspace(0, 2, dom_samples)] *)
Definition t_mesh : list R := np.linspace 0 2 dom_samples.

(** [X, T = np.meshgrid(x, t)] *)
Definition X_mesh : np.array2 := fst (np.meshgrid x_mesh t_mesh).
Definition T_mesh : np.array2 := snd (np.meshgrid x_mesh t_mesh).

(** [U = analytic_diffusion(X, T)] *)
Definition U_mesh : np.array2 := analytic_diffusion X_mesh T_mesh.

(* ================================================================= *)
(** * scipy.stats.qmc, in exact arithmetic *)

Module qmc.

Local Open Scope R_scope.

(** What the sampler's generator yields in one call of [random(n)]: the
    uniform draw for each row and column, and for each column the shuffled
    [arange(1, n + 1)]. *)
Record draws : Type := {
  uniform : nat -> nat -> R;
  shuffled : nat -> list nat
}.

(** The generator's contract: uniform draws lie in [0, 1), and a shuffle
    permutes its argument. *)
Definition draws_ok (n : nat) (w : draws) : Prop :=
  (forall k j, 0 <= uniform w k j < 1) /\
  (forall j, Permutation (shuffled w j) (seq 1 n)).

(** [LatinHypercube(d).random(n)]: row [k], column [j] of the sample is
    [(perms[j][k] - uniform[k][j]) / n]. *)
Definition LatinHypercube_random (d n : nat) (w : draws) : np.array2 :=
  map (fun k =>
         map (fun j => (INR (nth k (shuffled w j) 0%nat) - uniform w k j) / INR n)
             (seq 0 d))
      (seq 0 n).

Definition Rltb (a b : R) : bool := if Rlt_dec a b then true else false.
Definition Rleb (a b : R) : bool := if Rle_dec a b then true else false.

(** [qmc.scale(sample, l_bounds, u_bounds)]: after its three checks (the
    bounds have one entry per column, each lower bound is below its upper
    bound, the sample lies in the unit hypercube), the array
    [sample * (u_bounds - l_bounds) + l_bounds], column by column. *)
Definition scale (sample : np.array2) (l_bounds u_bounds : list R) : result np.array2 :=
  let d := length (hd [] sample) in
  if negb ((length l_bounds =? d)%nat && (length u_bounds =? d)%nat) then
    Raise (ValueError "bounds must respect the sample dimension")
  else if negb (forallb (fun lu => Rltb (fst lu) (snd lu)) (combine l_bounds u_bounds)) then
    Raise (ValueError "bounds are not consistent")
  else if negb (forallb (forallb (fun s => Rleb 0 s && Rleb s 1)) sample) then
    Raise (ValueError "sample is not in unit hypercube")
  else
    Ok (map (fun row =>
               zip_with (fun s lu => s * (snd lu - fst lu) + fst lu)
                        row (combine l_bounds u_bounds))
            sample).

End qmc.

(* ================================================================= *)
(** * Cell 7: the collocation points *)

(** [sample = qmc.LatinHypercube(d=2).random(n=100)] *)
Definition sample (w : qmc.draws) : np.array2 := qmc.LatinHypercube_random 2 100 w.

Definition l_bounds : list R := [(-1)%R; 0%R].
Definition u_bounds : list R := [1%R; 2%R].

(** [domain_xt = qmc.scale(sample, l_bounds, u_bounds)] *)
Definition domain_xt (w : qmc.draws) : result np.array2 :=
  qmc.scale (sample w) l_bounds u_bounds.

(** Stratum [s] (counted from 0) of the [n] equal-width strata of
    [(lo, hi]]: the half-open interval from [lo + s * width] (excluded) to
    [lo + (s + 1) * width] (included). *)
Definition in_stratum (lo hi : R) (n s : nat) (c : R) : Prop :=
  (lo + INR s * ((hi - lo) / INR n) < c <= lo + INR (S s) * ((hi - lo) / INR n))%R.

(** Entry [(k, j)] of the unit sample of cell 7. *)
Definition unit_entry (w : qmc.draws) (k j : nat) : R :=
  (INR (nth k (qmc.shuffled w j) 0%nat) - qmc.uniform w k j) / INR 100.

(** A generator outcome to exercise the statements: every uniform draw
    is 1/2 and every shuffle is the identity. *)
Definition centred_draws : qmc.draws :=
  {| qmc.uniform := fun _ _ => (1 / 2)%R; qmc.shuffled := fun _ => seq 1 100 |}.

(* ================================================================= *)
(** * torch.nn: modules and their parameters *)

Module nn.

(** torch's global generator: the seed it was last given and the number of
    tensors drawn from it since. *)
Record generator : Type := {
  seed : nat;
  drawn : nat
}.

Definition next (g : generator) : generator :=
  {| seed := seed g; drawn := S (drawn g) |}.

(** The distribution a parameter tensor was filled from. *)
Inductive initializer : Type :=
| kaiming_uniform                       (* default of [Linear.weight] *)
| bias_uniform                          (* default of [Linear.bias] *)
| xavier_normal (fan_in fan_out : nat). (* [nn.init.xavier_normal_] *)

(** A parameter tensor, by how it was filled: from which distribution, and
    at which draw of the generator.  Two parameters are equal when they hold
    the same values. *)
Record ParamTensor : Type := {
  init : initializer;
  draw : generator
}.

(** The module objects of the notebook.  [NeuralNetworkObj] is an instance
    of the notebook's class, with its one attribute [layers]. *)
Inductive module : Type :=
| Linear (in_features out_features : nat) (weight bias : ParamTensor)
| Tanh
| Sequential (children : list module)
| NeuralNetworkObj (layers : module).

Definition fill (i : initializer) : stmt generator ParamTensor :=
  fun g => (next g, Ok {| init := i; draw := g |}).

(** [nn.Linear(in_features, out_features)]: the weight, of shape
    (out_features, in_features), then the bias, each with its default. *)
Definition Linear_new (in_features out_features : nat) : stmt generator module :=
  w <- fill kaiming_uniform ;;
  b <- fill bias_uniform ;;
  ret (Linear in_features out_features w b).

(** Fan-in and fan-out of a tensor of the given shape; torch refuses
    tensors of fewer than two dimensions. *)
Definition fans (shape : list nat) : result (nat * nat) :=
  match shape with
  | o :: i :: rest => let field := fold_right Nat.mul 1 rest in Ok (i * field, o * field)
  | _ => Raise (ValueError "fan in and fan out need two dimensions")
  end.

(** [nn.init.xavier_normal_(tensor)], in place: the tensor of the given
    shape is refilled from a normal law of deviation
    [sqrt(2 / (fan_in + fan_out))]. *)
Definition xavier_normal_ (shape : list nat) (p : ParamTensor) : stmt generator ParamTensor :=
  f <- lift (fans shape) ;;
  fill (xavier_normal (fst f) (snd f)).

(** [module.apply(fn)]: [fn] on every child, recursively, then on the
    module itself. *)
Fixpoint apply (fn : module -> stmt generator module) (m : module) : stmt generator module :=
  match m with
  | Sequential children =>
      children' <- (fix apply_all (ms : list module) : stmt generator (list module) :=
                      match ms with
                      | [] => ret []
                      | c :: rest =>
                          c' <- apply fn c ;;
                          rest' <- apply_all rest ;;
                          ret (c' :: rest')
                      end) children ;;
      fn (Sequential children')
  | NeuralNetworkObj layers =>
      layers' <- apply fn layers ;;
      fn (NeuralNetworkObj layers')
  | Linear _ _ _ _ | Tanh => fn m
  end.

(** The size of the last dimension of [module(x)], for an input [x] whose
    last dimension has size [d]; [Linear] refuses an input of another
    width than [in_features]. *)
Fixpoint forward_width (m : module) (d : nat) : result nat :=
  match m with
  | Linear i o _ _ =>
      if (d =? i) then Ok o
      else Raise (RuntimeError "mat1 and mat2 shapes cannot be multiplied")
  | Tanh => Ok d
  | Sequential children =>
      (fix through (ms : list module) (d : nat) : result nat :=
         match ms with
         | [] => Ok d
         | c :: rest => d' <- forward_width c d ;; through rest d'
         end) children d
  | NeuralNetworkObj layers => forward_width layers d
  end.

(** [module.modules()]: the module and all its descendants, parents first. *)
Fixpoint modules (m : module) : list module :=
  match m with
  | Sequential children => m :: flat_map modules children
  | NeuralNetworkObj layers => m :: modules layers
  | Linear _ _ _ _ | Tanh => [m]
  end.

(** The weight and the bias of a module that has them. *)
Definition weight_of (m : module) : option ParamTensor :=
  match m with Linear _ _ w _ => Some w | _ => None end.

Definition bias_of (m : module) : option ParamTensor :=
  match m with Linear _ _ _ b => Some b | _ => None end.

Definition is_Linear (m : module) : bool :=
  match m with Linear _ _ _ _ => true | _ => false end.

End nn.

(* ================================================================= *)
(** * Cells 9 to 11: the network *)

Definition hidden_layers : list nat := [2; 10; 10; 10; 1].
Definition training_iter : nat := 20000.

(** [torch.manual_seed(s)]: the generator starts the stream of seed [s]. *)
Definition manual_seed (s : nat) : nn.generator := {| nn.seed := s; nn.drawn := 0 |}.

(** <<
    def init_normal(m):
        if isinstance(m, nn.Linear):
            nn.init.xavier_normal_(m.weight) # Xavier
    >> *)
Definition init_normal (m : nn.module) : stmt nn.generator nn.module :=
  match m with
  | nn.Linear i o w b =>
      w' <- nn.xavier_normal_ [o; i] w ;;
      ret (nn.Linear i o w' b)
  | _ => ret m
  end.

(** [def init_params(self): self.apply(init_normal)] *)
Definition init_params (self : nn.module) : stmt nn.generator nn.module :=
  nn.apply init_normal self.

(** The loop of [__init__]:
    <<
    for i in range(len(hlayers[:-2])):
        layers.append(nn.Linear(hlayers[i], hlayers[i+1]))
        layers.append(nn.Tanh())
    >> *)
Fixpoint append_hidden (hlayers : list nat) (idx : list nat) (layers : list nn.module)
  : stmt nn.generator (list nn.module) :=
  match idx with
  | [] => ret layers
  | i :: rest =>
      a <- lift (getitem hlayers i) ;;
      b <- lift (getitem hlayers (i + 1)) ;;
      l <- nn.Linear_new a b ;;
      append_hidden hlayers rest ((layers ++ [l]) ++ [nn.Tanh])
  end.

(** <<
    def __init__(self, hlayers):
        layers = []
        for i in range(len(hlayers[:-2])): ...
        layers.append(nn.Linear(hlayers[-2], hlayers[-1]))
        self.layers = nn.Sequential(layers[0], layers[1], ...)
        self.init_params()
    >> *)
Definition NeuralNetwork (hlayers : list nat) : stmt nn.generator nn.module :=
  layers <- append_hidden hlayers (range (length (slice_to_neg hlayers 2))) [] ;;
  a <- lift (getitem_neg hlayers 2) ;;
  b <- lift (getitem_neg hlayers 1) ;;
  l <- nn.Linear_new a b ;;
  let self := nn.NeuralNetworkObj (nn.Sequential (layers ++ [l])) in
  init_params self.

(** [def forward(self, x): return self.layers(x)], on widths. *)
Definition forward_width (self : nn.module) (d : nat) : result nat :=
  nn.forward_width self d.

(** A module with the weights of its [Linear] descendants blanked: what is
    left is everything else a module holds. *)
Fixpoint blank_weights (m : nn.module) : nn.module :=
  match m with
  | nn.Linear i o _ b => nn.Linear i o {| nn.init := nn.kaiming_uniform; nn.draw := manual_seed 0 |} b
  | nn.Tanh => nn.Tanh
  | nn.Sequential children => nn.Sequential (map blank_weights children)
  | nn.NeuralNetworkObj layers => nn.NeuralNetworkObj (blank_weights layers)
  end.

(** Induction on modules, with the hypothesis on every child of a
    [Sequential]. *)
Fixpoint module_induction (P : nn.module -> Prop)
    (HLinear : forall i o w b, P (nn.Linear i o w b))
    (HTanh : P nn.Tanh)
    (HSequential : forall children, Forall P children -> P (nn.Sequential children))
    (HNet : forall layers, P layers -> P (nn.NeuralNetworkObj layers))
    (m : nn.module) : P m :=
  match m with
  | nn.Linear i o w b => HLinear i o w b
  | nn.Tanh => HTanh
  | nn.Sequential children =>
      HSequential children
        ((fix all (ms : list nn.module) : Forall P ms :=
            match ms with
            | [] => Forall_nil P
            | c :: rest =>
                Forall_cons c (module_induction HLinear HTanh HSequential HNet c) (all rest)
            end) children)
  | nn.NeuralNetworkObj layers =>
      HNet layers (module_induction HLinear HTanh HSequential HNet layers)
  end.

(** What [init_params] leaves of a module [m] in [m']: everything but the
    weights, and Xavier weights. *)
Definition reinitialized (m m' : nn.module) : Prop :=
  blank_weights m' = blank_weights m /\
  map nn.bias_of (nn.modules m') = map nn.bias_of (nn.modules m) /\
  Forall (fun x => forall w, nn.weight_of x = Some w ->
                   exists fi fo, nn.init w = nn.xavier_normal fi fo) (nn.modules m').

(* ================================================================= *)
(** * Cells 13 and 14: the loss, the training loop, the evaluation *)

Section Script.

Context {F : Type} {SF : Scalar F}.

(** The Python values that name lookup, [+] and [.item()] meet here: a
    zero-dimensional tensor, or any other object. *)
Inductive pyobj : Type :=
| PyTensor (v : F)
| PyObject (repr : string).

(** A namespace: the names bound, latest first. *)
Definition namespace : Type := list (string * pyobj).

Fixpoint lookup (ns : namespace) (name : string) : option pyobj :=
  match ns with
  | [] => None
  | (n, v) :: rest => if String.eqb n name then Some v else lookup rest name
  end.

(** Reading a name that the function body never assigns: the module's
    globals (no builtin bears any of the names read below). *)
Definition load_global (globals : namespace) (name : string) : result pyobj :=
  match lookup globals name with
  | Some v => Ok v
  | None => Raise (NameError name)
  end.

(** [a + b] *)
Definition py_add (a b : pyobj) : result pyobj :=
  match a, b with
  | PyTensor x, PyTensor y => Ok (PyTensor (fadd x y))
  | _, _ => Raise TypeError
  end.

(** [loss.item()] *)
Definition item (o : pyobj) : result F :=
  match o with
  | PyTensor v => Ok v
  | PyObject _ => Raise AttributeError
  end.

(** The names bound at module level when the training loop runs: those of
    the imports, assignments, [def]s and [class] of cells 3 to 13, and the
    loop variable. *)
Definition notebook_names : list string :=
  [ "np"; "torch"; "nn"; "optim"; "plt"; "mlp"; "time"; "warnings"; "gray";
    "relative_l2_error"; "plot_comparison"; "grad";
    "dom_samples"; "analytic_diffusion"; "x"; "t"; "X"; "T"; "U"; "fig"; "ax"; "surf";
    "qmc"; "sampler"; "sample"; "l_bounds"; "u_bounds"; "domain_xt"; "x_ten"; "t_ten";
    "hidden_layers"; "learning_rate"; "training_iter";
    "MSE_func"; "NeuralNetwork"; "u_pinn"; "nparams"; "optimizer";
    "PINN_diffusion_Loss"; "loss_values"; "start_time"; "i" ]%string.

Definition notebook_globals : namespace :=
  map (fun n => (n, PyObject n)) notebook_names.

(** <<
    def PINN_diffusion_Loss(forward_pass, x_ten, t_ten,
                 lambda1 = 1, lambda2 = 1, lambda3 = 1):
        domain = torch.cat([t_ten, x_ten], dim = 1)
        u = forward_pass(domain)
        #TODO:  Calculate the first and second derivatives
        #TODO: calculate the PDE loss
        #TODO: calculate the IC loss
        #TODO: calculate the BC1 loss
        #TODO: calculate the BC2 loss
        return PDE_loss + IC_loss + BC1_loss + BC2_loss
    >>
    The body assigns [domain] and [u] only; the four names of the returned
    sum are read from the globals, left to right. *)
Definition PINN_diffusion_Loss (globals : namespace)
    (forward_pass : list (F * F) -> result (torch.tensor F))
    (x_ten t_ten : torch.tensor F) (lambda1 lambda2 lambda3 : F) : result pyobj :=
  domain <- torch.cat_dim1 t_ten x_ten ;;
  u <- forward_pass domain ;;
  PDE_loss <- load_global globals "PDE_loss" ;;
  IC_loss <- load_global globals "IC_loss" ;;
  s1 <- py_add PDE_loss IC_loss ;;
  BC1_loss <- load_global globals "BC1_loss" ;;
  s2 <- py_add s1 BC1_loss ;;
  BC2_loss <- load_global globals "BC2_loss" ;;
  py_add s2 BC2_loss.

(** What the loop calls under the name [PINN_diffusion_Loss], with the
    default weights. *)
Definition loss_function : Type :=
  (list (F * F) -> result (torch.tensor F)) -> torch.tensor F -> torch.tensor F -> result pyobj.

Definition PINN_diffusion_Loss_default : loss_function :=
  fun forward_pass x_ten t_ten =>
    PINN_diffusion_Loss notebook_globals forward_pass x_ten t_ten fone fone fone.

(** The library side of the script: [Theta] is the network with its
    numbers, its gradients and the optimizer's moments. Every call may
    raise. *)
Record Runtime (Theta : Type) : Type := {
  (* [torch.tensor(a).float()], on one element *)
  float_ : R -> F;
  (* what the sampler's generator yields *)
  lhs_draws : qmc.draws;
  (* the numbers behind a freshly built network, and [optim.Adam] over them *)
  instantiate : nn.module -> result Theta;
  (* [u_pinn(domain)] *)
  forward : Theta -> list (F * F) -> result (torch.tensor F);
  (* [optimizer.zero_grad()] *)
  zero_grad : Theta -> result Theta;
  (* [loss.backward()] *)
  backward : Theta -> F -> result Theta;
  (* [optimizer.step()] *)
  step : Theta -> result Theta;
  (* [plot_comparison(U, U_pred, loss_values)] *)
  plot_comparison : np.array2 -> torch.tensor F -> list F -> result unit
}.

(** A line written by [print]. *)
Inductive output : Type :=
| IterationLine (i : nat) (loss : F)
| TrainingTimeLine
| RelativeErrorLine (err : F).

(** The objects the loop and the evaluation mutate. *)
Record session (Theta : Type) : Type := {
  u_pinn : Theta;
  loss_values : list F;
  stdout : list output
}.

Variable Theta : Type.
Variable rt : Runtime Theta.

Definition set_u_pinn (m : Theta) : stmt (session Theta) unit :=
  modify (fun s => {| u_pinn := m; loss_values := loss_values s; stdout := stdout s |}).

(** [loss_values.append(v)] *)
Definition append_loss (v : F) : stmt (session Theta) unit :=
  modify (fun s => {| u_pinn := u_pinn s; loss_values := loss_values s ++ [v]; stdout := stdout s |}).

(** [print(...)] *)
Definition print (o : output) : stmt (session Theta) unit :=
  modify (fun s => {| u_pinn := u_pinn s; loss_values := loss_values s; stdout := stdout s ++ [o] |}).

(** The body of the training loop:
    <<
    optimizer.zero_grad()
    loss = PINN_diffusion_Loss(u_pinn, x_ten, t_ten)
    loss_values.append(loss.item())
    if i % 1000 == 0:
        print(f'Iteration {i}: Loss {loss.item()}')
    loss.backward()
    optimizer.step()
    >> *)
Definition iteration (loss_fn : loss_function) (x_ten t_ten : torch.tensor F) (i : nat)
  : stmt (session Theta) unit :=
  s <- get ;;
  m0 <- lift (zero_grad rt (u_pinn s)) ;;
  set_u_pinn m0 ;;
  loss <- lift (loss_fn (forward rt m0) x_ten t_ten) ;;
  v <- lift (item loss) ;;
  append_loss v ;;
  (if (i mod 1000 =? 0) then v' <- lift (item loss) ;; print (IterationLine i v')
   else ret tt) ;;
  m1 <- lift (backward rt m0 v) ;;
  set_u_pinn m1 ;;
  m2 <- lift (step rt m1) ;;
  set_u_pinn m2.

(** [for i in range(training_iter): ...] *)
Definition training_loop (loss_fn : loss_function) (x_ten t_ten : torch.tensor F)
  : stmt (session Theta) unit :=
  for_in (range training_iter) (iteration loss_fn x_ten t_ten).

(** Cell 7, up to the two tensors. *)
Definition cell_7 : result (torch.tensor F * torch.tensor F) :=
  domain <- domain_xt (lhs_draws rt) ;;
  let x_ten := map (float_ rt) (np.column domain 0) in
  let t_ten := map (float_ rt) (np.column domain 1) in
  ret (x_ten, t_ten).

(** Cells 9 to 11: the seed, the network, the optimizer. *)
Definition cell_11 : result Theta :=
  match NeuralNetwork hidden_layers (manual_seed 123) with
  | (_, Ok net) => instantiate rt net
  | (_, Raise e) => Raise e
  end.

(** Cell 13: the loop, then the elapsed time. *)
Definition cell_13 (loss_fn : loss_function) (x_ten t_ten : torch.tensor F)
  : stmt (session Theta) unit :=
  training_loop loss_fn x_ten t_ten ;;
  print TrainingTimeLine.

(** Cell 14:
    <<
    X_ten = torch.tensor(X).float().reshape(-1, 1)
    T_ten = torch.tensor(T).float().reshape(-1, 1)
    domain_ten = torch.cat([T_ten, X_ten], dim = 1)
    U_pred = u_pinn(domain_ten).reshape(dom_samples,dom_samples)
    U_true = torch.tensor(U).float()
    print(f'Relative error: {relative_l2_error(U_pred, U_true)}')
    plot_comparison(U, U_pred, loss_values)
    >> *)
Definition cell_14 : stmt (session Theta) unit :=
  s <- get ;;
  let X_ten := map (float_ rt) (concat X_mesh) in
  let T_ten := map (float_ rt) (concat T_mesh) in
  domain_ten <- lift (torch.cat_dim1 T_ten X_ten) ;;
  U_pred <- lift (forward rt (u_pinn s) domain_ten) ;;
  let U_true := map (float_ rt) (concat U_mesh) in
  err <- lift (relative_l2_error U_pred U_true) ;;
  print (RelativeErrorLine err) ;;
  lift (plot_comparison rt U_mesh U_pred (loss_values s)).

(** The session cell 13 starts from: [loss_values = []]. *)
Definition fresh (m : Theta) : session Theta :=
  {| u_pinn := m; loss_values := []; stdout := [] |}.

(** The cells run in order ("Run All"), stopping at the first that raises.
    The outcome is the session reached, if the network was built, and how
    the run ended. *)
Definition notebook_with (loss_fn : loss_function) : option (session Theta) * result unit :=
  match cell_7 with
  | Raise e => (None, Raise e)
  | Ok (x_ten, t_ten) =>
      match cell_11 with
      | Raise e => (None, Raise e)
      | Ok m =>
          let (s, r) := (cell_13 loss_fn x_ten t_ten ;; cell_14) (fresh m) in
          (Some s, r)
      end
  end.

(** The notebook as it stands. *)
Definition notebook : option (session Theta) * result unit :=
  notebook_with PINN_diffusion_Loss_default.

(** One of the calls of an iteration raises [e], those before it having
    returned. *)
Definition iteration_call_raises (loss_fn : loss_function)
    (x_ten t_ten : torch.tensor F) (s : session Theta) (e : exn) : Prop :=
  zero_grad rt (u_pinn s) = Raise e \/
  exists m0, zero_grad rt (u_pinn s) = Ok m0 /\
    (loss_fn (forward rt m0) x_ten t_ten = Raise e \/
     exists loss, loss_fn (forward rt m0) x_ten t_ten = Ok loss /\
       (item loss = Raise e \/
        exists v, item loss = Ok v /\
          (backward rt m0 v = Raise e \/
           exists m1, backward rt m0 v = Ok m1 /\ step rt m1 = Raise e))).

(** One of the calls of cell 14 raises [e], those before it having
    returned. *)
Definition cell_14_call_raises (s : session Theta) (e : exn) : Prop :=
  let X_ten := map (float_ rt) (concat X_mesh) in
  let T_ten := map (float_ rt) (concat T_mesh) in
  let U_true := map (float_ rt) (concat U_mesh) in
  torch.cat_dim1 T_ten X_ten = Raise e \/
  exists domain_ten, torch.cat_dim1 T_ten X_ten = Ok domain_ten /\
    (forward rt (u_pinn s) domain_ten = Raise e \/
     exists U_pred, forward rt (u_pinn s) domain_ten = Ok U_pred /\
       (relative_l2_error U_pred U_true = Raise e \/
        exists err, relative_l2_error U_pred U_true = Ok err /\
          plot_comparison rt U_mesh U_pred (loss_values s) = Raise e)).

(** One of the cells raises [e], those before it having returned. *)
Definition cell_raises (loss_fn : loss_function) (e : exn) : Prop :=
  cell_7 = Raise e \/
  exists x_ten t_ten, cell_7 = Ok (x_ten, t_ten) /\
    (cell_11 = Raise e \/
     exists m, cell_11 = Ok m /\
       ((exists s, cell_13 loss_fn x_ten t_ten (fresh m) = (s, Raise e)) \/
        exists s s', cell_13 loss_fn x_ten t_ten (fresh m) = (s, Ok tt) /\
                     cell_14 s = (s', Raise e))).

(** What [print] adds in iteration [i], the loss being [v]. *)
Definition iteration_lines (i : nat) (v : F) : list output :=
  if i mod 1000 =? 0 then [IterationLine i v] else [].

(** The exception [e] comes from [loss.backward()] or [optimizer.step()],
    the loss having been evaluated to [v] on the network [m0]. *)
Definition update_raises (loss_fn : loss_function) (x_ten t_ten : torch.tensor F)
    (s : session Theta) (v : F) (e : exn) : Prop :=
  exists m0, zero_grad rt (u_pinn s) = Ok m0 /\
    loss_fn (forward rt m0) x_ten t_ten = Ok (PyTensor v) /\
    (backward rt m0 v = Raise e \/
     exists m1, backward rt m0 v = Ok m1 /\ step rt m1 = Raise e).

End Script.

(** A library that never fails and computes nothing, to exercise the
    statements above. *)
Definition idle_runtime : Runtime (F := binary32) unit :=
  {| float_ := fun _ => fzero;
     lhs_draws := centred_draws;
     instantiate := fun _ => Ok tt;
     forward := fun _ d => Ok (map fst d);
     zero_grad := fun m => Ok m;
     backward := fun m _ => Ok m;
     step := fun m => Ok m;
     plot_comparison := fun _ _ _ => Ok tt |}.

(** A loss that returns the tensor 1.0 at every call. *)
Definition constant_loss : loss_function (F := binary32) :=
  fun _ _ _ => Ok (PyTensor fone).

(** A library whose [loss.backward()] fails, to exercise the statements
    on failure. *)
Definition failing_backward_runtime : Runtime (F := binary32) unit :=
  {| float_ := fun _ => fzero;
     lhs_draws := centred_draws;
     instantiate := fun _ => Ok tt;
     forward := fun _ d => Ok (map fst d);
     zero_grad := fun m => Ok m;
     backward := fun _ _ => Raise (RuntimeError "backward");
     step := fun m => Ok m;
     plot_comparison := fun _ _ _ => Ok tt |}.

(* ================================================================= *)
(** * Further vocabulary: the network *)

(** The generator [k] draws after [g]. *)
Definition advance (g : nn.generator) (k : nat) : nn.generator :=
  {| nn.seed := nn.seed g; nn.drawn := nn.drawn g + k |}.

(** The [Linear] modules of a module, in the order of [modules()]. *)
Definition linears (m : nn.module) : list nn.module :=
  filter nn.is_Linear (nn.modules m).

(** A list of [Linear] modules after one Xavier refill each, the first from
    the draw [g], the next from the draw after, and so on: the shapes and
    the biases stay. *)
Fixpoint refilled (g : nn.generator) (ls : list nn.module) : list nn.module :=
  match ls with
  | [] => []
  | l :: rest =>
      match l with
      | nn.Linear i o _ b =>
          nn.Linear i o {| nn.init := nn.xavier_normal i o; nn.draw := g |} b
      | _ => l
      end :: refilled (nn.next g) rest
  end.

(** The kind of a layer, parameters apart. *)
Inductive layer_kind : Type :=
| KLinear (in_features out_features : nat)
| KTanh
| KContainer.

Definition kind_of (m : nn.module) : layer_kind :=
  match m with
  | nn.Linear i o _ _ => KLinear i o
  | nn.Tanh => KTanh
  | _ => KContainer
  end.

(** The multilayer perceptron a list of widths describes: an affine layer
    between consecutive widths, a [Tanh] between consecutive affine
    layers. *)
Fixpoint perceptron (widths : list nat) : list layer_kind :=
  match widths with
  | a :: ((b :: rest') as rest) =>
      match rest' with
      | [] => [KLinear a b]
      | _ => KLinear a b :: KTanh :: perceptron rest
      end
  | _ => []
  end.

(** The layers [__init__] has appended before [init_params] runs: [n]
    hidden pairs read off the widths [ws], with their default parameters
    drawn from [g] on. *)
Fixpoint hidden_pairs (ws : list nat) (n : nat) (g : nn.generator) : list nn.module :=
  match n, ws with
  | S n', a :: ((b :: _) as rest) =>
      nn.Linear a b {| nn.init := nn.kaiming_uniform; nn.draw := g |}
                    {| nn.init := nn.bias_uniform; nn.draw := nn.next g |}
      :: nn.Tanh :: hidden_pairs rest n' (nn.next (nn.next g))
  | _, _ => []
  end.

(** [nn.Linear(a, b)] as constructed when the generator is at [g]. *)
Definition default_Linear (a b : nat) (g : nn.generator) : nn.module :=
  nn.Linear a b {| nn.init := nn.kaiming_uniform; nn.draw := g |}
                {| nn.init := nn.bias_uniform; nn.draw := nn.next g |}.

(** All the layers [__init__] has appended before [init_params] runs, for
    the widths [ws]: a [Linear] with its default parameters between
    consecutive widths, a [Tanh] between consecutive [Linear]s. *)
Fixpoint default_layers (ws : list nat) (g : nn.generator) : list nn.module :=
  match ws with
  | a :: ((b :: rest') as rest) =>
      let l := nn.Linear a b {| nn.init := nn.kaiming_uniform; nn.draw := g |}
                             {| nn.init := nn.bias_uniform; nn.draw := nn.next g |} in
      match rest' with
      | [] => [l]
      | _ => l :: nn.Tanh :: default_layers rest (nn.next (nn.next g))
      end
  | _ => []
  end.

(** [p.numel()] of the parameters of a module of its own, weight first. *)
Definition own_numels (m : nn.module) : list nat :=
  match m with
  | nn.Linear i o _ _ => [o * i; o]
  | _ => []
  end.

(** Cell 11:
    [nparams = sum(p.numel() for p in u_pinn.parameters() if p.requires_grad)].
    [parameters()] walks [modules()]; every parameter of a [Linear] requires
    a gradient, and nothing in the notebook freezes one. *)
Definition nparams (u_pinn : nn.module) : nat :=
  list_sum (flat_map own_numels (nn.modules u_pinn)).

(** The parameters a list of widths calls for: a matrix and a vector
    between consecutive widths. *)
Fixpoint perceptron_size (widths : list nat) : nat :=
  match widths with
  | a :: ((b :: _) as rest) => b * a + b + perceptron_size rest
  | _ => 0
  end.

(** The draws behind the parameters of a module, weight before bias, in
    the order of [parameters()]. *)
Definition own_draws (m : nn.module) : list nn.generator :=
  match m with
  | nn.Linear _ _ w b => [nn.draw w; nn.draw b]
  | _ => []
  end.

Definition parameter_draws (m : nn.module) : list nn.generator :=
  flat_map own_draws (nn.modules m).

(* ================================================================= *)
(** * Further vocabulary: the heat equation *)

(** The source term of the problem of cell 0, with [kappa = 1]:
    <<
    du/dt = d2u/dx2 - e^(-t) (sin(pi x) - pi^2 sin(pi x))
    >> *)
Definition heat_source (x t : R) : R :=
  (- (Rtrigo_def.exp (- t)
      * (Rtrigo_def.sin (PI * x) - PI * PI * Rtrigo_def.sin (PI * x))))%R.

(* ================================================================= *)
(** * Properties of the monads *)

Lemma Ok_inj {A : Type} (a b : A) : Ok a = Ok b -> a = b.
Proof. intros H. now inversion H. Qed.

(* ================================================================= *)
(** * Properties of [relative_l2_error] *)

Section RelativeError.

Local Open Scope R_scope.

Lemma sum_squares_fold (v : list R) (a : R) :
  fold_left (fun acc x => fadd acc (fmul x x)) v a
  = a + fold_right Rplus 0 (map Rsqr v).
Proof.
  revert a; induction v as [|x v IH]; intros a; simpl.
  - lra.
  - rewrite IH. unfold Rsqr. lra.
Qed.

Lemma norm_is_euclidean (v : list R) : torch.norm v = euclidean_norm v.
Proof.
  unfold torch.norm, euclidean_norm. rewrite sum_squares_fold.
  simpl. f_equal. lra.
Qed.

Lemma zip_sub_is_difference (u v : list R) :
  zip_with fsub u v = vector_difference u v.
Proof.
  unfold vector_difference.
  revert v; induction u as [|a u IH]; intros [|b v]; simpl; try reflexivity.
  now rewrite IH.
Qed.



End RelativeError.

Section RelativeErrorBinary32.

Lemma sum_squares_zero (u : list binary32) :
  Forall (fun x => is_zero x = true) u ->
  fold_left (fun acc x => fadd acc (fmul x x)) u (S754_zero false) = S754_zero false.
Proof.
  induction 1 as [|x u Hx _ IH]; simpl; [reflexivity|].
  destruct x as [s|s| |s m e]; try discriminate.
  destruct s; simpl; exact IH.
Qed.

Lemma norm_zero (u : list binary32) :
  Forall (fun x => is_zero x = true) u -> torch.norm u = S754_zero false.
Proof.
  intros Hu. unfold torch.norm. cbn [fzero binary32_scalar].
  now rewrite (sum_squares_zero Hu).
Qed.

Lemma div_by_zero_not_finite (x : binary32) (s : bool) :
  is_finite (fdiv x (S754_zero s)) = false.
Proof. destruct x; reflexivity. Qed.

Lemma sub_returns (a b : list binary32) :
  broadcastable a b -> exists d, torch.sub a b = Ok d.
Proof.
  unfold torch.sub. intros Hc.
  destruct (length a =? length b) eqn:E; [eauto|].
  apply Nat.eqb_neq in E.
  destruct Hc as [Hc|[Hc|Hc]]; [contradiction| |].
  - destruct a as [|x [|? ?]]; try discriminate. eauto.
  - destruct b as [|y [|? ?]]; try discriminate.
    destruct a as [|x [|? ?]]; eauto.
Qed.



End RelativeErrorBinary32.

(* ================================================================= *)
(** * Properties of the uniform mesh *)

Section Mesh.

Local Open Scope R_scope.

Lemma zip_with_length {A B C : Type} (f : A -> B -> C) (xs : list A) (ys : list B) :
  length (zip_with f xs ys) = Nat.min (length xs) (length ys).
Proof.
  revert ys; induction xs as [|x xs IH]; intros [|y ys]; simpl; auto.
Qed.

Lemma zip_with_nth {A B C : Type} (f : A -> B -> C) (xs : list A) (ys : list B)
      (i : nat) (da : A) (db : B) (dc : C) :
  (i < length xs)%nat -> (i < length ys)%nat ->
  nth i (zip_with f xs ys) dc = f (nth i xs da) (nth i ys db).
Proof.
  revert ys i; induction xs as [|x xs IH]; intros [|y ys] [|i]; simpl;
    intros H1 H2; try lia; auto.
  apply IH; lia.
Qed.

Lemma map_nth_in {A B : Type} (f : A -> B) (xs : list A) (i : nat) (da : A) (db : B) :
  (i < length xs)%nat -> nth i (map f xs) db = f (nth i xs da).
Proof.
  intros Hi. rewrite (nth_indep _ db (f da)) by now rewrite length_map.
  apply map_nth.
Qed.

Lemma linspace_length (start stop : R) (num : nat) :
  length (np.linspace start stop num) = num.
Proof.
  unfold np.linspace. destruct (Nat.ltb_spec 1 num) as [H|H].
  - rewrite length_app, length_firstn, length_map, length_seq. simpl. lia.
  - now rewrite length_map, length_seq.
Qed.

(** The closed form of [np.linspace]: element [j] is [start + j * step]. *)
Lemma linspace_nth (start stop : R) (num j : nat) :
  (2 <= num)%nat -> (j < num)%nat ->
  nth j (np.linspace start stop num) 0
  = start + INR j * ((stop - start) / INR (num - 1)).
Proof.
  intros Hnum Hj. unfold np.linspace.
  destruct (Nat.ltb_spec 1 num) as [_|H]; [|lia].
  destruct (Nat.ltb_spec 0 (num - 1)) as [_|H]; [|lia].
  assert (Hd : INR (num - 1) <> 0) by (apply not_0_INR; lia).
  destruct (Nat.eq_dec j (num - 1)) as [->|Hne].
  - rewrite app_nth2; rewrite length_firstn, length_map, length_seq;
      [|lia]. replace (num - 1 - Nat.min (num - 1) num)%nat with 0%nat by lia.
    simpl. field. exact Hd.
  - rewrite app_nth1 by (rewrite length_firstn, length_map, length_seq; lia).
    rewrite nth_firstn. destruct (Nat.ltb_spec j (num - 1)) as [_|H]; [|lia].
    rewrite (map_nth_in _ _ 0%nat) by (rewrite length_seq; lia).
    rewrite seq_nth by lia. simpl. lra.
Qed.

Lemma linspace_first (start stop : R) (num : nat) :
  (2 <= num)%nat -> nth 0 (np.linspace start stop num) 0 = start.
Proof. intros H. rewrite linspace_nth by lia. simpl. lra. Qed.

Lemma linspace_last (start stop : R) (num : nat) :
  (2 <= num)%nat -> nth (num - 1) (np.linspace start stop num) 0 = stop.
Proof.
  intros H. rewrite linspace_nth by lia. field. apply not_0_INR. lia.
Qed.

Lemma linspace_spacing (start stop : R) (num j : nat) :
  (2 <= num)%nat -> (S j < num)%nat ->
  nth (S j) (np.linspace start stop num) 0 - nth j (np.linspace start stop num) 0
  = (stop - start) / INR (num - 1).
Proof.
  intros H Hj. rewrite !linspace_nth by lia. rewrite S_INR. lra.
Qed.

Lemma INR_99 : INR 99 = 99.
Proof. rewrite INR_IZR_INZ. reflexivity. Qed.

(** [analytic_diffusion] on two arrays of one shape is the formula at each
    position. *)
Lemma analytic_diffusion_item (X T : np.array2) (i j : nat) :
  (i < length X)%nat -> (i < length T)%nat ->
  (j < length (nth i X []))%nat -> (j < length (nth i T []))%nat ->
  np.item2 (analytic_diffusion X T) i j
  = analytic_diffusion_at (np.item2 X i j) (np.item2 T i j).
Proof.
  intros HiX HiT HjX HjT.
  unfold analytic_diffusion, analytic_diffusion_at, np.item2, np.multiply, np.ufunc2,
    np.exp, np.sin, np.negative, np.scalar_multiply, np.ufunc1.
  rewrite (zip_with_nth _ _ _ [] [] []) by (rewrite !length_map; assumption).
  rewrite !(map_nth_in _ _ []) by (rewrite ?length_map; assumption).
  rewrite (zip_with_nth _ _ _ 0 0 0) by (rewrite !length_map; assumption).
  rewrite !(map_nth_in _ _ 0) by (rewrite ?length_map; assumption).
  reflexivity.
Qed.

Lemma meshgrid_X (x t : list R) (i j : nat) :
  (i < length t)%nat -> np.item2 (fst (np.meshgrid x t)) i j = nth j x 0.
Proof.
  intros Hi. unfold np.item2, np.meshgrid; cbn [fst snd].
  now rewrite (map_nth_in _ _ 0) by assumption.
Qed.

Lemma meshgrid_T (x t : list R) (i j : nat) :
  (i < length t)%nat -> (j < length x)%nat ->
  np.item2 (snd (np.meshgrid x t)) i j = nth i t 0.
Proof.
  intros Hi Hj. unfold np.item2, np.meshgrid; cbn [fst snd].
  rewrite (map_nth_in _ _ 0) by assumption.
  now rewrite (map_nth_in _ _ 0) by assumption.
Qed.

Lemma meshgrid_rows (x t : list R) (i : nat) :
  (i < length t)%nat ->
  length (nth i (fst (np.meshgrid x t)) []) = length x /\
  length (nth i (snd (np.meshgrid x t)) []) = length x.
Proof.
  intros Hi. unfold np.meshgrid; cbn [fst snd].
  rewrite !(map_nth_in _ _ 0) by assumption.
  now rewrite length_map.
Qed.

Lemma U_mesh_item (i j : nat) :
  (i < 100)%nat -> (j < 100)%nat ->
  np.item2 U_mesh i j = analytic_diffusion_at (nth j x_mesh 0) (nth i t_mesh 0).
Proof.
  intros Hi Hj. unfold U_mesh, X_mesh, T_mesh.
  assert (Hx : length x_mesh = 100%nat) by apply linspace_length.
  assert (Ht : length t_mesh = 100%nat) by apply linspace_length.
  destruct (meshgrid_rows x_mesh t_mesh (i := i)) as [HrX HrT]; [lia|].
  rewrite analytic_diffusion_item.
  - rewrite meshgrid_X, meshgrid_T by lia. reflexivity.
  - unfold np.meshgrid; cbn [fst snd]. rewrite length_map. lia.
  - unfold np.meshgrid; cbn [fst snd]. rewrite length_map. lia.
  - lia.
  - lia.
Qed.


End Mesh.

(* ================================================================= *)
(** * Properties of the collocation points *)

Section Collocation.

Local Open Scope R_scope.

(** A coordinate scaled into [(lo, hi]] lies in stratum [s] exactly when
    its permutation entry is [s + 1]. *)
Lemma stratum_iff (lo hi u : R) (n p s : nat) :
  lo < hi -> (0 < n)%nat -> 0 <= u < 1 ->
  in_stratum lo hi n s ((INR p - u) / INR n * (hi - lo) + lo) <-> p = S s.
Proof.
  intros Hlh Hn Hu. unfold in_stratum.
  assert (HN : 0 < INR n) by (apply lt_0_INR; lia).
  set (q := (hi - lo) / INR n).
  assert (Hq : 0 < q) by (apply Rdiv_lt_0_compat; lra).
  replace ((INR p - u) / INR n * (hi - lo) + lo) with ((INR p - u) * q + lo)
    by (unfold q; field; lra).
  rewrite S_INR. split.
  - intros [H1 H2].
    assert (H1' : INR s < INR p - u) by (apply (Rmult_lt_reg_r q); lra).
    assert (H2' : INR p - u <= INR s + 1) by (apply (Rmult_le_reg_r q); lra).
    assert (Hsp : (s < p)%nat) by (apply INR_lt; lra).
    assert (Hps : (p < S (S s))%nat) by (apply INR_lt; rewrite !S_INR; lra).
    lia.
  - intros ->. rewrite S_INR.
    assert (H1 : INR s * q < (INR s + 1 - u) * q) by (apply Rmult_lt_compat_r; lra).
    assert (H2 : (INR s + 1 - u) * q <= (INR s + 1) * q) by (apply Rmult_le_compat_r; lra).
    lra.
Qed.

(** A shuffle of [1..n] holds each value of [1..n] at exactly one index. *)
Lemma shuffle_unique_index (l : list nat) (n v : nat) :
  Permutation l (seq 1 n) -> (1 <= v <= n)%nat ->
  exists! k, (k < n)%nat /\ nth k l 0%nat = v.
Proof.
  intros Hp Hv.
  assert (Hlen : length l = n) by (rewrite (Permutation_length Hp); apply length_seq).
  assert (Hin : In v l).
  { apply (Permutation_in _ (Permutation_sym Hp)). apply in_seq. lia. }
  assert (Hnd : NoDup l).
  { apply (Permutation_NoDup (Permutation_sym Hp)). apply seq_NoDup. }
  destruct (In_nth l v 0%nat Hin) as [k [Hk Hnth]].
  exists k. split; [split; [lia|exact Hnth]|].
  intros k' [Hk' Hnth'].
  apply (proj1 (NoDup_nth l 0%nat) Hnd); lia.
Qed.

Lemma shuffle_entry_range (l : list nat) (n k : nat) :
  Permutation l (seq 1 n) -> (k < n)%nat -> (1 <= nth k l 0 <= n)%nat.
Proof.
  intros Hp Hk.
  assert (Hlen : length l = n) by (rewrite (Permutation_length Hp); apply length_seq).
  assert (Hin : In (nth k l 0%nat) (seq 1 n)).
  { apply (Permutation_in _ Hp). apply nth_In. lia. }
  apply in_seq in Hin. lia.
Qed.

Variable w : qmc.draws.
Hypothesis w_ok : qmc.draws_ok 100 w.

Lemma sample_row (k : nat) :
  (k < 100)%nat -> nth k (sample w) [] = [unit_entry w k 0; unit_entry w k 1].
Proof.
  intros Hk. unfold sample, qmc.LatinHypercube_random.
  rewrite (map_nth_in _ _ 0%nat) by (rewrite length_seq; exact Hk).
  rewrite seq_nth by exact Hk. reflexivity.
Qed.

Lemma unit_entry_range (k j : nat) :
  (k < 100)%nat -> 0 < unit_entry w k j <= 1.
Proof.
  intros Hk. destruct w_ok as [Hu Hp]. unfold unit_entry.
  pose proof (shuffle_entry_range (Hp j) Hk) as [H1 H2].
  apply le_INR in H1, H2. simpl (INR 1) in H1.
  specialize (Hu k j).
  assert (HN : 0 < INR 100) by (apply lt_0_INR; lia).
  split.
  - apply Rdiv_lt_0_compat; lra.
  - apply (Rmult_le_reg_r (INR 100)); [exact HN|].
    unfold Rdiv. rewrite Rmult_assoc, Rinv_l by lra. lra.
Qed.

Lemma sample_in_unit_hypercube :
  forallb (forallb (fun s => qmc.Rleb 0 s && qmc.Rleb s 1)) (sample w) = true.
Proof.
  apply forallb_forall. intros row Hrow.
  unfold sample, qmc.LatinHypercube_random in Hrow.
  apply in_map_iff in Hrow. destruct Hrow as [k [<- Hk]].
  apply in_seq in Hk.
  apply forallb_forall. intros e He.
  apply in_map_iff in He. destruct He as [j [<- _]].
  pose proof (@unit_entry_range k j ltac:(lia)) as [H1 H2].
  unfold unit_entry in H1, H2. unfold qmc.Rleb.
  destruct (Rle_dec 0 _); [|lra]. destruct (Rle_dec _ 1); [reflexivity|lra].
Qed.

Lemma scale_returns :
  domain_xt w
  = Ok (map (fun row =>
               zip_with (fun s lu => s * (snd lu - fst lu) + fst lu)
                        row (combine l_bounds u_bounds))
            (sample w)).
Proof.
  unfold domain_xt, qmc.scale.
  rewrite sample_in_unit_hypercube.
  replace (length (hd [] (sample w))) with 2%nat by reflexivity.
  unfold l_bounds, u_bounds. cbn [length Nat.eqb andb negb combine forallb fst snd].
  unfold qmc.Rltb.
  destruct (Rlt_dec (-1) 1); [|lra]. destruct (Rlt_dec 0 2); [|lra].
  reflexivity.
Qed.

Lemma domain_row (pts : np.array2) (k : nat) :
  domain_xt w = Ok pts -> (k < 100)%nat ->
  nth k pts [] = [unit_entry w k 0 * (1 - -1) + -1; unit_entry w k 1 * (2 - 0) + 0].
Proof.
  rewrite scale_returns. intros Hpts Hk. apply Ok_inj in Hpts. subst pts.
  rewrite (map_nth_in _ _ []) by (unfold sample, qmc.LatinHypercube_random;
                                  rewrite length_map, length_seq; exact Hk).
  rewrite sample_row by exact Hk. reflexivity.
Qed.


End Collocation.

Lemma centred_draws_ok : qmc.draws_ok 100 centred_draws.
Proof.
  split; simpl.
  - intros _ _. lra.
  - intros _. apply Permutation_refl.
Defined.


(* ================================================================= *)
(** * Properties of the network *)

Section Network.

Lemma init_normal_not_Linear (m : nn.module) (g : nn.generator) :
  nn.is_Linear m = false -> init_normal m g = (g, Ok m).
Proof. destruct m; simpl; intros H; try discriminate; reflexivity. Qed.

Lemma init_params_reinitializes (m : nn.module) :
  forall g, exists g' m', init_params m g = (g', Ok m') /\ reinitialized m m'.
Proof.
  unfold init_params, reinitialized.
  induction m using module_induction; intros g.
  - eexists _, _. split; [reflexivity|]. cbn. split; [reflexivity|].
    split; [reflexivity|]. constructor; [|constructor].
    intros w' [= <-]. cbn. eauto.
  - eexists _, _. split; [reflexivity|]. cbn. split; [reflexivity|].
    split; [reflexivity|]. constructor; [|constructor]. discriminate.
  - cbn [nn.apply].
    set (apply_all := fix apply_all (ms : list nn.module)
                        : stmt nn.generator (list nn.module) :=
           match ms with
           | [] => ret []
           | c :: rest =>
               c' <- nn.apply init_normal c ;;
               rest' <- apply_all rest ;;
               ret (c' :: rest')
           end).
    assert (Hall : forall g0, exists g1 cs',
               apply_all children g0 = (g1, Ok cs') /\
               map blank_weights cs' = map blank_weights children /\
               map nn.bias_of (flat_map nn.modules cs')
               = map nn.bias_of (flat_map nn.modules children) /\
               Forall (fun x => forall w, nn.weight_of x = Some w ->
                         exists fi fo, nn.init w = nn.xavier_normal fi fo)
                      (flat_map nn.modules cs')).
    { clear g. induction H as [|c rest Hc _ IH]; intros g0.
      - exists g0, []. cbn. repeat split; constructor.
      - destruct (Hc g0) as [g1 [c' [Ec [Hb [Hbias Hx]]]]].
        destruct (IH g1) as [g2 [rest' [Er [Hb' [Hbias' Hx']]]]].
        exists g2, (c' :: rest'). cbn. rewrite Ec. cbn. rewrite Er. cbn.
        split; [reflexivity|]. split; [now rewrite Hb, Hb'|].
        split; [now rewrite !map_app, Hbias, Hbias'|].
        apply Forall_app. split; assumption. }
    destruct (Hall g) as [g1 [cs' [E [Hb [Hbias Hx]]]]].
    exists g1, (nn.Sequential cs'). cbn. rewrite E. cbn.
    split; [reflexivity|]. split; [now rewrite Hb|].
    split; [now rewrite Hbias|]. constructor; [discriminate|assumption].
  - destruct (IHm g) as [g1 [l' [E [Hb [Hbias Hx]]]]].
    exists g1, (nn.NeuralNetworkObj l'). cbn. rewrite E. cbn.
    split; [reflexivity|]. split; [now rewrite Hb|].
    split; [now rewrite Hbias|]. constructor; [discriminate|assumption].
Qed.

(** C10. [init_params] always returns, and what it returns differs from
    the module it was given in the weights of [Linear] modules only: the
    biases are the same tensors, in the same places, and [init_normal]
    returns a module that is not a [Linear] as it received it, without a
    draw from the generator. *)
Theorem init_params_touches_weights_only :
  (forall self g, exists g' self',
      init_params self g = (g', Ok self') /\
      blank_weights self' = blank_weights self /\
      map nn.bias_of (nn.modules self') = map nn.bias_of (nn.modules self)) /\
  (forall i o w b g, exists g' w',
      init_normal (nn.Linear i o w b) g = (g', Ok (nn.Linear i o w' b))) /\
  (forall m g, nn.is_Linear m = false -> init_normal m g = (g, Ok m)).
Proof.
  split; [|split].
  - intros self g. destruct (init_params_reinitializes self g) as [g' [m' [E [Hb [Hbias _]]]]].
    eauto.
  - intros i o w b g. eexists _, _. reflexivity.
  - apply init_normal_not_Linear.
Qed.

(** C4. For [hidden_layers = [2, 10, 10, 10, 1]] the constructor returns a
    network whose [layers] are four [Linear] modules, of shapes 2 to 10,
    10 to 10, 10 to 10 and 10 to 1, with a [Tanh] after each but the last;
    it takes inputs of width 2, and only those, to outputs of width 1; and
    every weight has been refilled by [xavier_normal_], after the default
    fill of the constructor of [Linear]. *)
Theorem NeuralNetwork_architecture :
  exists g' w1 b1 w2 b2 w3 b3 w4 b4,
    let net := nn.NeuralNetworkObj
                 (nn.Sequential [nn.Linear 2 10 w1 b1; nn.Tanh;
                                 nn.Linear 10 10 w2 b2; nn.Tanh;
                                 nn.Linear 10 10 w3 b3; nn.Tanh;
                                 nn.Linear 10 1 w4 b4]) in
    NeuralNetwork hidden_layers (manual_seed 123) = (g', Ok net) /\
    length (filter nn.is_Linear (nn.modules net)) = 4 /\
    (forall d, forward_width net d
               = if d =? 2 then Ok 1
                 else Raise (RuntimeError "mat1 and mat2 shapes cannot be multiplied")) /\
    map nn.init [w1; w2; w3; w4]
    = [nn.xavier_normal 2 10; nn.xavier_normal 10 10;
       nn.xavier_normal 10 10; nn.xavier_normal 10 1] /\
    map nn.init [b1; b2; b3; b4]
    = [nn.bias_uniform; nn.bias_uniform; nn.bias_uniform; nn.bias_uniform] /\
    Forall (fun w => 8 <= nn.drawn (nn.draw w)) [w1; w2; w3; w4].
Proof.
  do 9 eexists. cbv zeta. split; [vm_compute; reflexivity|].
  split; [reflexivity|]. split; [|split; [reflexivity|split; [reflexivity|]]].
  - intros d. unfold forward_width. cbn.
    destruct (Nat.eqb_spec d 2) as [->|Hd]; reflexivity.
  - repeat constructor.
Qed.

End Network.

(* ================================================================= *)
(** * Properties of the loss and of the training loop *)

Section Loop.

Context {F : Type} {SF : Scalar F}.

Lemma notebook_globals_unbound :
  lookup (F := F) notebook_globals "PDE_loss" = None /\
  lookup (F := F) notebook_globals "IC_loss" = None /\
  lookup (F := F) notebook_globals "BC1_loss" = None /\
  lookup (F := F) notebook_globals "BC2_loss" = None.
Proof. repeat split; vm_compute; reflexivity. Qed.

(** Wherever [PDE_loss] is unbound the function cannot return. *)
Lemma PINN_diffusion_Loss_unbound (globals : namespace (F := F))
      (forward_pass : list (F * F) -> result (torch.tensor F))
      (x_ten t_ten : torch.tensor F) (l1 l2 l3 : F) :
  lookup globals "PDE_loss" = None ->
  (exists e, PINN_diffusion_Loss globals forward_pass x_ten t_ten l1 l2 l3 = Raise e) /\
  (forall domain u,
      torch.cat_dim1 t_ten x_ten = Ok domain -> forward_pass domain = Ok u ->
      PINN_diffusion_Loss globals forward_pass x_ten t_ten l1 l2 l3
      = Raise (NameError "PDE_loss")).
Proof.
  intros Hun. unfold PINN_diffusion_Loss, load_global. rewrite Hun. split.
  - destruct (torch.cat_dim1 t_ten x_ten) as [domain|e]; cbn; [|eauto].
    destruct (forward_pass domain) as [u|e]; cbn; eauto.
  - intros domain u -> . cbn. intros ->. reflexivity.
Qed.

(** With the four names bound to tensors, the function returns their sum,
    added left to right. *)
Lemma PINN_diffusion_Loss_bound (globals : namespace (F := F))
      (forward_pass : list (F * F) -> result (torch.tensor F))
      (x_ten t_ten : torch.tensor F) (l1 l2 l3 : F)
      (domain : list (F * F)) (u : torch.tensor F) (a b c d : F) :
  torch.cat_dim1 t_ten x_ten = Ok domain -> forward_pass domain = Ok u ->
  lookup globals "PDE_loss" = Some (PyTensor a) ->
  lookup globals "IC_loss" = Some (PyTensor b) ->
  lookup globals "BC1_loss" = Some (PyTensor c) ->
  lookup globals "BC2_loss" = Some (PyTensor d) ->
  PINN_diffusion_Loss globals forward_pass x_ten t_ten l1 l2 l3
  = Ok (PyTensor (fadd (fadd (fadd a b) c) d)).
Proof.
  intros Hc Hf Ha Hb Hc' Hd. unfold PINN_diffusion_Loss, load_global.
  rewrite Hc. cbn. rewrite Hf. cbn. rewrite Ha, Hb, Hc', Hd. reflexivity.
Qed.

(** C1. As the notebook stands, [PINN_diffusion_Loss] concatenates its two
    tensors, runs the forward pass, and then reads [PDE_loss], which nothing
    binds: every call raises, and a call whose forward pass returns raises
    [NameError].  No loss term and no derivative is computed. *)
Theorem PINN_diffusion_Loss_raises
        (forward_pass : list (F * F) -> result (torch.tensor F))
        (x_ten t_ten : torch.tensor F) (lambda1 lambda2 lambda3 : F) :
  (exists e, PINN_diffusion_Loss notebook_globals forward_pass x_ten t_ten
                                 lambda1 lambda2 lambda3 = Raise e) /\
  (forall domain u,
      torch.cat_dim1 t_ten x_ten = Ok domain -> forward_pass domain = Ok u ->
      PINN_diffusion_Loss notebook_globals forward_pass x_ten t_ten
                          lambda1 lambda2 lambda3
      = Raise (NameError "PDE_loss")).
Proof.
  apply PINN_diffusion_Loss_unbound. apply notebook_globals_unbound.
Qed.

Variable Theta : Type.
Variable rt : Runtime (F := F) Theta.

Lemma training_iter_succ : training_iter = S 19999.
Proof. reflexivity. Qed.

Lemma for_in_first_raises {St : Type} (body : nat -> stmt St unit) (i : nat)
      (rest : list nat) (s s' : St) (e : exn) :
  body i s = (s', Raise e) -> for_in (i :: rest) body s = (s', Raise e).
Proof. intros H. cbn [for_in]. cbn. now rewrite H. Qed.

(** An iteration whose loss evaluation raises ends there, before it
    appends or prints. *)
Lemma iteration_loss_raises (loss_fn : loss_function (F := F))
      (x_ten t_ten : torch.tensor F) (i : nat) (s : session Theta) :
  (forall fp, exists e, loss_fn fp x_ten t_ten = Raise e) ->
  exists s' e,
    iteration rt loss_fn x_ten t_ten i s = (s', Raise e) /\
    loss_values s' = loss_values s /\
    stdout s' = stdout s.
Proof.
  intros Hloss. unfold iteration. cbn.
  destruct (zero_grad rt (u_pinn s)) as [m0|e]; cbn.
  - destruct (Hloss (forward rt m0)) as [e He]. rewrite He. cbn. eauto.
  - eauto.
Qed.

Lemma iteration_raises (x_ten t_ten : torch.tensor F) (i : nat) (s : session Theta) :
  exists s' e,
    iteration rt PINN_diffusion_Loss_default x_ten t_ten i s = (s', Raise e) /\
    loss_values s' = loss_values s /\
    stdout s' = stdout s.
Proof.
  apply iteration_loss_raises. intros fp.
  apply PINN_diffusion_Loss_unbound, notebook_globals_unbound.
Qed.

(** C6. As the notebook stands, the training loop does not run its 20000
    iterations: whatever the library calls do, it ends in its first
    iteration with an exception, and [loss_values] and the printed lines
    are as they were before the loop. *)
Theorem training_loop_raises_in_first_iteration
        (x_ten t_ten : torch.tensor F) (s : session Theta) :
  exists s' e,
    training_loop rt PINN_diffusion_Loss_default x_ten t_ten s = (s', Raise e) /\
    loss_values s' = loss_values s /\
    stdout s' = stdout s /\
    iteration rt PINN_diffusion_Loss_default x_ten t_ten 0 s = (s', Raise e).
Proof.
  destruct (iteration_raises x_ten t_ten 0 s) as [s' [e [Hit [Hl Ho]]]].
  exists s', e. repeat split; try assumption.
  unfold training_loop, range. rewrite training_iter_succ, <- cons_seq.
  now apply for_in_first_raises.
Qed.

(** A loop over [seq a n] raises [e] exactly when some iteration [a + k],
    reached after [k] iterations that returned, raises [e]: no iteration is
    skipped, none is retried, and nothing runs after the one that raises. *)
Lemma for_in_raises_iff {St : Type} (body : nat -> stmt St unit) (n : nat) :
  forall (a : nat) (s s' : St) (e : exn),
    for_in (seq a n) body s = (s', Raise e) <->
    exists k s_k, k < n /\
      for_in (seq a k) body s = (s_k, Ok tt) /\
      body (a + k) s_k = (s', Raise e).
Proof.
  induction n as [|n IH]; intros a s s' e.
  - cbn. split; [discriminate|]. intros [k [s_k [Hk _]]]. lia.
  - rewrite <- cons_seq. cbn [for_in]. cbn. split.
    + destruct (body a s) as [s1 [[]|e1]] eqn:Hb.
      * intros Hrest. apply IH in Hrest. destruct Hrest as [k [s_k [Hk [Hpre Hit]]]].
        exists (S k), s_k. split; [lia|]. split.
        -- rewrite <- cons_seq. cbn [for_in]. cbn. rewrite Hb. exact Hpre.
        -- now rewrite Nat.add_succ_r.
      * intros [= <- <-]. exists 0, s. split; [lia|]. split; [reflexivity|].
        now rewrite Nat.add_0_r.
    + intros [k [s_k [Hk [Hpre Hit]]]]. destruct k as [|k].
      * cbn in Hpre. injection Hpre as <-. rewrite Nat.add_0_r in Hit.
        now rewrite Hit.
      * rewrite <- cons_seq in Hpre. cbn [for_in] in Hpre. cbn in Hpre.
        destruct (body a s) as [s1 [[]|e1]]; [|discriminate].
        apply IH. exists k, s_k. split; [lia|]. split; [exact Hpre|].
        now rewrite Nat.add_succ_r in Hit.
Qed.

(** A loop whose iterations all return has run each of them once. *)
Lemma for_in_returns {St : Type} (body : nat -> stmt St unit) (size : St -> nat)
      (idx : list nat) :
  (forall i s, exists s', body i s = (s', Ok tt) /\ size s' = S (size s)) ->
  forall s, exists s', for_in idx body s = (s', Ok tt) /\ size s' = size s + length idx.
Proof.
  intros Hbody. induction idx as [|i idx IH]; intros s.
  - exists s. cbn. split; [reflexivity|lia].
  - destruct (Hbody i s) as [s1 [Hb Hs1]]. destruct (IH s1) as [s2 [Hr Hs2]].
    exists s2. cbn [for_in]. cbn. rewrite Hb. split; [exact Hr|].
    cbn [length]. lia.
Qed.

(** Were the loss to return a tensor at every call, and no library call to
    raise, the loop would run its [training_iter] iterations and append one
    value in each. *)
Lemma training_loop_completes (loss_fn : loss_function (F := F))
      (x_ten t_ten : torch.tensor F) :
  (forall fp, exists v, loss_fn fp x_ten t_ten = Ok (PyTensor v)) ->
  (forall m, exists m', zero_grad rt m = Ok m') ->
  (forall m v, exists m', backward rt m v = Ok m') ->
  (forall m, exists m', step rt m = Ok m') ->
  forall s, exists s',
    training_loop rt loss_fn x_ten t_ten s = (s', Ok tt) /\
    length (loss_values s') = length (loss_values s) + training_iter.
Proof.
  intros Hloss Hz Hb Hs s. unfold training_loop, range.
  destruct (@for_in_returns _ (iteration rt loss_fn x_ten t_ten)
              (fun s => length (loss_values s)) (seq 0 training_iter)) with (s := s)
    as [s' [Hrun Hlen]].
  - clear s. intros i s. unfold iteration.
    destruct (i mod 1000 =? 0); cbn;
      destruct (Hz (u_pinn s)) as [m0 ->]; cbn;
      destruct (Hloss (forward rt m0)) as [v ->]; cbn;
      destruct (Hb m0 v) as [m1 ->]; cbn;
      destruct (Hs m1) as [m2 ->]; cbn;
      eexists; (split; [reflexivity|]); cbn; rewrite length_app; cbn; lia.
  - exists s'. rewrite length_seq in Hlen. split; assumption.
Qed.

End Loop.

(* ================================================================= *)
(** * Exceptions *)

Section Exceptions.

Context {F : Type} {SF : Scalar F}.
Variable Theta : Type.
Variable rt : Runtime (F := F) Theta.
Variable loss_fn : loss_function (F := F).

Ltac raise_cases :=
  repeat match goal with
         | H : _ \/ _ |- _ => destruct H
         | H : exists _, _ |- _ => destruct H
         | H : _ /\ _ |- _ => destruct H
         | H : Ok _ = Ok _ |- _ => apply Ok_inj in H; subst
         | H : Ok _ = Raise _ |- _ => discriminate H
         | H : Raise _ = Ok _ |- _ => discriminate H
         | H : (_, Raise _) = (_, Ok _) |- _ => discriminate H
         | H : (_, Ok _) = (_, Raise _) |- _ => discriminate H
         | H : (_, Raise ?a) = (_, Raise ?b) |- _ =>
             assert (a = b) by congruence; subst; clear H
         | H : Raise ?a = Raise ?b |- _ =>
             assert (a = b) by congruence; subst; clear H
         | H1 : ?x = Ok ?a, H2 : ?x = Ok ?b |- _ =>
             assert (a = b) by congruence; subst; clear H2
         | H1 : ?x = Ok _, H2 : ?x = Raise _ |- _ => congruence
         | H1 : ?x = Raise ?a, H2 : ?x = Raise ?b |- _ =>
             assert (a = b) by congruence; subst; clear H2
         | H : item _ = _ |- _ => progress cbn [item] in H
         end.

(** The call that raised, found among the disjuncts. *)
Ltac pick_call :=
  solve [ eassumption
        | reflexivity
        | match goal with
          | |- _ /\ _ => split; pick_call
          | |- exists _, _ => eexists; pick_call
          | |- _ \/ _ => first [ left; pick_call | right; pick_call ]
          end ].

(** Both directions of: the run raises [e] exactly when this call does. *)
Ltac raise_iff :=
  split; intros; raise_cases;
  first [ congruence
        | match goal with
          | |- exists _, (_, Raise ?a) = (_, Raise ?b) =>
              assert (a = b) by congruence; subst; eexists; reflexivity
          end
        | pick_call ].

Lemma iteration_raises_iff (x_ten t_ten : torch.tensor F) (i : nat)
      (s : session (F := F) Theta) (e : exn) :
  (exists s', iteration rt loss_fn x_ten t_ten i s = (s', Raise e)) <->
  iteration_call_raises rt loss_fn x_ten t_ten s e.
Proof.
  unfold iteration_call_raises.
  cbv [iteration bind ret stmt_monad lift get modify set_u_pinn append_loss print].
  destruct (zero_grad rt (u_pinn s)) as [m0|e0] eqn:Hz; [|raise_iff].
  destruct (loss_fn (forward rt m0) x_ten t_ten) as [loss|e1] eqn:Hl; [|raise_iff].
  destruct loss as [v|repr]; cbn [item]; [|raise_iff].
  destruct (i mod 1000 =? 0).
  - destruct (backward rt m0 v) as [m1|e2] eqn:Hb; [|raise_iff].
    destruct (step rt m1) as [m2|e3] eqn:Hs; raise_iff.
  - destruct (backward rt m0 v) as [m1|e2] eqn:Hb; [|raise_iff].
    destruct (step rt m1) as [m2|e3] eqn:Hs; raise_iff.
Qed.

Lemma cell_14_raises_iff (s : session (F := F) Theta) (e : exn) :
  (exists s', cell_14 rt s = (s', Raise e)) <-> cell_14_call_raises rt s e.
Proof.
  unfold cell_14_call_raises.
  cbv [cell_14 bind ret stmt_monad lift get modify print].
  set (X_ten := map (float_ rt) (concat X_mesh)).
  set (T_ten := map (float_ rt) (concat T_mesh)).
  set (U_true := map (float_ rt) (concat U_mesh)).
  destruct (torch.cat_dim1 T_ten X_ten) as [d|e0] eqn:Hc; [|raise_iff].
  destruct (forward rt (u_pinn s) d) as [U_pred|e1] eqn:Hf; [|raise_iff].
  destruct (relative_l2_error U_pred U_true) as [err|e2] eqn:He; [|raise_iff].
  destruct (plot_comparison rt U_mesh U_pred (loss_values s)) as [[]|e3] eqn:Hp; raise_iff.
Qed.

Lemma notebook_raises_iff (e : exn) :
  snd (notebook_with rt loss_fn) = Raise e <-> cell_raises rt loss_fn e.
Proof.
  unfold notebook_with, cell_raises.
  destruct (cell_7 rt) as [[x_ten t_ten]|e0] eqn:H7; [|cbn [snd]; raise_iff].
  destruct (cell_11 rt) as [m|e1] eqn:H11; [|cbn [snd]; raise_iff].
  cbv [bind stmt_monad].
  destruct (cell_13 rt loss_fn x_ten t_ten (fresh m)) as [s1 [[]|e2]] eqn:H13;
    [|cbn [snd]; raise_iff].
  destruct (cell_14 rt s1) as [s2 [[]|e3]] eqn:H14; cbn [snd]; raise_iff.
Qed.

Lemma cell_7_raises_iff (e : exn) :
  cell_7 rt = Raise e <-> domain_xt (lhs_draws rt) = Raise e.
Proof.
  unfold cell_7. cbv [bind ret result_monad].
  destruct (domain_xt (lhs_draws rt)) as [domain|e0]; split;
    intros H; first [discriminate H | inversion H; reflexivity].
Qed.

Lemma NeuralNetwork_returns :
  exists g net, NeuralNetwork hidden_layers (manual_seed 123) = (g, Ok net).
Proof. eexists _, _. vm_compute. reflexivity. Qed.

Lemma cell_11_raises_iff (e : exn) :
  cell_11 rt = Raise e <->
  exists g net, NeuralNetwork hidden_layers (manual_seed 123) = (g, Ok net) /\
                instantiate rt net = Raise e.
Proof.
  unfold cell_11. destruct NeuralNetwork_returns as [g [net ->]]. split.
  - eauto.
  - intros [g' [net' [Hn Hi]]].
    assert (net' = net) by congruence. now subst.
Qed.

Lemma cell_13_raises_iff (x_ten t_ten : torch.tensor F)
      (s s' : session (F := F) Theta) (e : exn) :
  cell_13 rt loss_fn x_ten t_ten s = (s', Raise e) <->
  training_loop rt loss_fn x_ten t_ten s = (s', Raise e).
Proof.
  unfold cell_13. cbv [bind stmt_monad print modify].
  destruct (training_loop rt loss_fn x_ten t_ten s) as [s1 [[]|e1]]; split;
    intros H; (discriminate H || exact H).
Qed.

(** C8. Nothing in the script catches an exception.  The run of the
    notebook raises [e] exactly when one of its cells does, the cells
    before it having returned; a cell raises [e] exactly when one of its
    calls does; the training loop raises [e] exactly when one of its
    iterations does, reached after iterations that all returned, and that
    iteration exactly when one of its calls does.  In each case the
    exception that reaches the top is the one that was raised. *)
Theorem exceptions_reach_top_level :
  (forall e, snd (notebook_with rt loss_fn) = Raise e <-> cell_raises rt loss_fn e) /\
  (forall e, cell_7 rt = Raise e <-> domain_xt (lhs_draws rt) = Raise e) /\
  (forall e, cell_11 rt = Raise e <->
             exists g net, NeuralNetwork hidden_layers (manual_seed 123) = (g, Ok net) /\
                           instantiate rt net = Raise e) /\
  (forall x_ten t_ten s s' e,
      cell_13 rt loss_fn x_ten t_ten s = (s', Raise e) <->
      exists k s_k, k < training_iter /\
        for_in (range k) (iteration rt loss_fn x_ten t_ten) s = (s_k, Ok tt) /\
        iteration rt loss_fn x_ten t_ten k s_k = (s', Raise e)) /\
  (forall x_ten t_ten i s e,
      (exists s', iteration rt loss_fn x_ten t_ten i s = (s', Raise e)) <->
      iteration_call_raises rt loss_fn x_ten t_ten s e) /\
  (forall s e, (exists s', cell_14 rt s = (s', Raise e)) <-> cell_14_call_raises rt s e).
Proof.
  split; [exact notebook_raises_iff|].
  split; [exact cell_7_raises_iff|].
  split; [exact cell_11_raises_iff|].
  split; [|split; [exact iteration_raises_iff|exact cell_14_raises_iff]].
  intros x_ten t_ten s s' e. rewrite cell_13_raises_iff.
  unfold training_loop, range. apply for_in_raises_iff.
Qed.

End Exceptions.

(* ================================================================= *)
(** * The run of the notebook as it stands *)

Section Run.

Context {F : Type} {SF : Scalar F}.
Variable Theta : Type.
Variable rt : Runtime (F := F) Theta.

Lemma cat_dim1_same_length (a b : torch.tensor F) :
  length a = length b -> torch.cat_dim1 a b = Ok (combine a b).
Proof. intros H. unfold torch.cat_dim1. apply Nat.eqb_eq in H. now rewrite H. Qed.

(** With a library that does not fail, the run ends in the first iteration
    of the training loop, on the unbound name. *)
Lemma notebook_raises_NameError :
  qmc.draws_ok 100 (lhs_draws rt) ->
  (forall net, exists m, instantiate rt net = Ok m) ->
  (forall m, exists m', zero_grad rt m = Ok m') ->
  (forall m d, exists u, forward rt m d = Ok u) ->
  snd (notebook rt) = Raise (NameError "PDE_loss") /\
  exists s, fst (notebook rt) = Some s /\ loss_values s = [] /\ stdout s = [].
Proof.
  intros Hok Hinst Hz Hf. unfold notebook, notebook_with.
  unfold cell_7. rewrite (scale_returns Hok). cbv [bind ret result_monad].
  set (domain := map _ (sample (lhs_draws rt))).
  set (x_ten := map (float_ rt) (np.column domain 0)).
  set (t_ten := map (float_ rt) (np.column domain 1)).
  unfold cell_11. destruct NeuralNetwork_returns as [g [net ->]].
  destruct (Hinst net) as [m ->].
  assert (Hit : exists s',
             iteration rt PINN_diffusion_Loss_default x_ten t_ten 0 (fresh m)
             = (s', Raise (NameError "PDE_loss")) /\
             loss_values s' = [] /\ stdout s' = []).
  { cbv [iteration bind ret stmt_monad lift get modify set_u_pinn].
    cbn [u_pinn fresh]. destruct (Hz m) as [m0 ->].
    destruct (Hf m0 (combine t_ten x_ten)) as [u Hu].
    unfold PINN_diffusion_Loss_default.
    rewrite (proj2 (PINN_diffusion_Loss_unbound notebook_globals (forward rt m0)
                      x_ten t_ten fone fone fone (proj1 notebook_globals_unbound))
                   (combine t_ten x_ten) u).
    - eexists. split; [reflexivity|]. split; reflexivity.
    - apply cat_dim1_same_length. unfold t_ten, x_ten, np.column.
      now rewrite !length_map.
    - exact Hu. }
  destruct Hit as [s' [Hit [Hl Ho]]].
  assert (H13 : cell_13 rt PINN_diffusion_Loss_default x_ten t_ten (fresh m)
                = (s', Raise (NameError "PDE_loss"))).
  { apply cell_13_raises_iff. unfold training_loop, range.
    rewrite training_iter_succ, <- cons_seq. now apply for_in_first_raises. }
  cbv [bind stmt_monad]. rewrite H13. cbn [fst snd]. eauto.
Qed.

End Run.

Example notebook_raises_NameError_idle :
  snd (notebook idle_runtime) = Raise (NameError "PDE_loss").
Proof.
  apply (notebook_raises_NameError idle_runtime); cbn; eauto.
  exact centred_draws_ok.
Qed.

Example training_loop_completes_constant_loss :
  exists s',
    training_loop idle_runtime constant_loss [] [] (fresh tt) = (s', Ok tt) /\
    length (loss_values s') = 20000.
Proof.
  destruct (@training_loop_completes _ _ idle_runtime constant_loss [] [])
    with (s := fresh (F := binary32) tt) as [s' [Hrun Hlen]].
  - intros fp. eexists. reflexivity.
  - intros m. eexists. reflexivity.
  - intros m v. eexists. reflexivity.
  - intros m. eexists. reflexivity.
  - exists s'. split; [exact Hrun|]. rewrite Hlen. reflexivity.
Qed.

(* ================================================================= *)
(** * The definitions on small inputs *)

Section SmallInputs.

Local Open Scope R_scope.

Example linspace_three : np.linspace 0 1 3 = [0; 1 / 2; 1].
Proof. unfold np.linspace. cbn. repeat (f_equal; try lra). Qed.

Example linspace_one : np.linspace 5 7 1 = [5].
Proof. unfold np.linspace. cbn. f_equal. lra. Qed.

Example meshgrid_two_by_three :
  np.meshgrid [1; 2; 3] [10; 20] = ([[1; 2; 3]; [1; 2; 3]], [[10; 10; 10]; [20; 20; 20]]).
Proof. reflexivity. Qed.

(** [relative_l2_error([0, 0], [3, 4])] is 5 / 5. *)
Example relative_l2_error_one :
  relative_l2_error [S754_zero false; S754_zero false] [three; four] = Ok (fone (F := binary32)).
Proof. vm_compute. reflexivity. Qed.

(** Tensors of sizes 3 and 2 cannot be subtracted. *)
Example relative_l2_error_sizes :
  relative_l2_error [three; four; three] [three; four]
  = Raise (RuntimeError "sub: sizes do not match").
Proof. reflexivity. Qed.

(** Both operands zero: 0 / 0. *)
Example relative_l2_error_nan :
  relative_l2_error [S754_zero false] [S754_zero false] = Ok S754_nan.
Proof. vm_compute. reflexivity. Qed.

(** Two entries give one [Linear] and no [Tanh]; one entry gives no
    [hlayers[-2]]. *)
Example NeuralNetwork_two_entries :
  exists g w b,
    NeuralNetwork [3; 1]%nat (manual_seed 0)
    = (g, Ok (nn.NeuralNetworkObj (nn.Sequential [nn.Linear 3 1 w b]))).
Proof. do 3 eexists. vm_compute. reflexivity. Qed.

Example NeuralNetwork_one_entry :
  snd (NeuralNetwork [3]%nat (manual_seed 0)) = Raise IndexError.
Proof. reflexivity. Qed.

End SmallInputs.

(* ================================================================= *)
(** * The network, for any list of widths and any module *)

Section NetworkInGeneral.

Lemma advance_0 (g : nn.generator) : advance g 0 = g.
Proof. destruct g as [s d]. unfold advance. cbn. now rewrite Nat.add_0_r. Qed.

Lemma next_advance (g : nn.generator) (k : nat) : nn.next (advance g k) = advance g (S k).
Proof. unfold nn.next, advance. cbn. now rewrite Nat.add_succ_r. Qed.

Lemma next_is_advance (g : nn.generator) : nn.next g = advance g 1.
Proof. now rewrite <- (advance_0 g) at 1; rewrite next_advance. Qed.

Lemma advance_advance (g : nn.generator) (a b : nat) :
  advance (advance g a) b = advance g (a + b).
Proof. unfold advance. cbn. now rewrite Nat.add_assoc. Qed.

Lemma filter_flat_map {A B : Type} (f : B -> bool) (h : A -> list B) (l : list A) :
  filter f (flat_map h l) = flat_map (fun x => filter f (h x)) l.
Proof.
  induction l as [|x l IH]; cbn; [reflexivity|].
  now rewrite filter_app, IH.
Qed.

Lemma linears_Sequential (children : list nn.module) :
  linears (nn.Sequential children) = flat_map linears children.
Proof. unfold linears. cbn. apply filter_flat_map. Qed.

Lemma refilled_app (g : nn.generator) (a b : list nn.module) :
  refilled g (a ++ b) = refilled g a ++ refilled (advance g (length a)) b.
Proof.
  revert g; induction a as [|x a IH]; intros g; cbn.
  - now rewrite advance_0.
  - rewrite IH, next_is_advance, advance_advance. reflexivity.
Qed.

Lemma refilled_length (g : nn.generator) (ls : list nn.module) :
  length (refilled g ls) = length ls.
Proof. revert g; induction ls as [|x ls IH]; intros g; cbn; [|rewrite IH]; reflexivity. Qed.

Lemma init_normal_Linear (i o : nat) (w b : nn.ParamTensor) (g : nn.generator) :
  init_normal (nn.Linear i o w b) g
  = (nn.next g,
     Ok (nn.Linear i o {| nn.init := nn.xavier_normal i o; nn.draw := g |} b)).
Proof. cbn. now rewrite !Nat.mul_1_r. Qed.

(** The run of [init_params], draw by draw. *)
Lemma init_params_trace (m : nn.module) :
  forall g, exists m',
    init_params m g = (advance g (length (linears m)), Ok m') /\
    linears m' = refilled g (linears m).
Proof.
  unfold init_params.
  induction m using module_induction; intros g.
  - eexists. cbn [nn.apply]. rewrite init_normal_Linear.
    split; [now rewrite next_is_advance|reflexivity].
  - exists nn.Tanh. cbn. now rewrite advance_0.
  - cbn [nn.apply].
    set (apply_all := fix apply_all (ms : list nn.module)
                        : stmt nn.generator (list nn.module) :=
           match ms with
           | [] => ret []
           | c :: rest =>
               c' <- nn.apply init_normal c ;;
               rest' <- apply_all rest ;;
               ret (c' :: rest')
           end).
    assert (Hall : forall g0, exists cs',
               apply_all children g0
               = (advance g0 (length (flat_map linears children)), Ok cs') /\
               flat_map linears cs' = refilled g0 (flat_map linears children)).
    { clear g. induction H as [|c rest Hc _ IH]; intros g0.
      - exists []. cbn. now rewrite advance_0.
      - destruct (Hc g0) as [c' [Ec Hl]].
        destruct (IH (advance g0 (length (linears c)))) as [rest' [Er Hl']].
        exists (c' :: rest'). cbn. rewrite Ec. cbn. rewrite Er. cbn.
        rewrite length_app, advance_advance. split; [reflexivity|].
        now rewrite refilled_app, Hl, Hl'. }
    destruct (Hall g) as [cs' [E Hl]].
    exists (nn.Sequential cs'). rewrite !linears_Sequential. split; [|exact Hl].
    cbv [bind stmt_monad]. rewrite E. reflexivity.
  - destruct (IHm g) as [l' [E Hl]].
    exists (nn.NeuralNetworkObj l'). split; [|exact Hl].
    cbn [nn.apply]. cbv [bind stmt_monad]. rewrite E. reflexivity.
Qed.

(** X1. Whatever the module and the state of the generator, [init_params]
    draws one tensor per [Linear] module and no other, leaves the seed, and
    gives the [Linear] modules, in the order of [modules()], Xavier weights
    from consecutive draws, with fan-in [in_features] and fan-out
    [out_features]. *)
Theorem init_params_refills_in_order (self : nn.module) (g : nn.generator) :
  exists self',
    init_params self g
    = ({| nn.seed := nn.seed g; nn.drawn := nn.drawn g + length (linears self) |}, Ok self') /\
    linears self' = refilled g (linears self) /\
    length (linears self') = length (linears self).
Proof.
  destruct (init_params_trace self g) as [m' [E Hl]].
  exists m'. split; [exact E|]. split; [exact Hl|].
  now rewrite Hl, refilled_length.
Qed.

Lemma skipn_cons_inv {A : Type} (l : list A) (a : nat) (x : A) (r : list A) :
  skipn a l = x :: r -> nth_error l a = Some x /\ skipn (S a) l = r.
Proof.
  revert l; induction a as [|a IH]; intros [|y l]; cbn; intros H; try discriminate.
  - inversion H. split; reflexivity.
  - apply IH in H. exact H.
Qed.

Lemma Linear_new_run (i o : nat) (g : nn.generator) :
  nn.Linear_new i o g
  = (nn.next (nn.next g),
     Ok (nn.Linear i o {| nn.init := nn.kaiming_uniform; nn.draw := g |}
                       {| nn.init := nn.bias_uniform; nn.draw := nn.next g |})).
Proof. reflexivity. Qed.

(** The loop of [__init__], from any index on. *)
Lemma append_hidden_run (hlayers : list nat) (n : nat) :
  forall a acc g ws,
    skipn a hlayers = ws -> n + 1 <= length ws ->
    append_hidden hlayers (seq a n) acc g
    = (advance g (2 * n), Ok (acc ++ hidden_pairs ws n g)).
Proof.
  induction n as [|n IH]; intros a acc g ws Hs Hlen.
  - destruct ws; cbn; now rewrite advance_0, app_nil_r.
  - destruct ws as [|x [|y r]]; cbn in Hlen; try lia.
    destruct (skipn_cons_inv _ _ Hs) as [Hx Hs'].
    destruct (skipn_cons_inv _ _ Hs') as [Hy _].
    cbn [seq append_hidden]. unfold getitem. rewrite Nat.add_1_r, Hx, Hy.
    cbv [bind stmt_monad lift]. rewrite Linear_new_run.
    rewrite (IH (S a) _ _ (y :: r) Hs') by (cbn; lia).
    f_equal; [|f_equal; rewrite <- !app_assoc; reflexivity].
    rewrite !next_is_advance, !advance_advance. f_equal. lia.
Qed.

Lemma hidden_pairs_then_last (n : nat) :
  forall ws g, length ws = n + 2 ->
    hidden_pairs ws n g
    ++ [nn.Linear (nth n ws 0) (nth (S n) ws 0)
          {| nn.init := nn.kaiming_uniform; nn.draw := advance g (2 * n) |}
          {| nn.init := nn.bias_uniform; nn.draw := nn.next (advance g (2 * n)) |}]
    = default_layers ws g.
Proof.
  induction n as [|n IH]; intros ws g Hlen.
  - destruct ws as [|a [|b [|c r]]]; try discriminate. cbn. now rewrite advance_0.
  - destruct ws as [|a [|b [|c r]]]; cbn in Hlen; try lia.
    change (hidden_pairs (a :: b :: c :: r) (S n) g)
      with (nn.Linear a b {| nn.init := nn.kaiming_uniform; nn.draw := g |}
                          {| nn.init := nn.bias_uniform; nn.draw := nn.next g |}
            :: nn.Tanh :: hidden_pairs (b :: c :: r) n (nn.next (nn.next g))).
    change (default_layers (a :: b :: c :: r) g)
      with (nn.Linear a b {| nn.init := nn.kaiming_uniform; nn.draw := g |}
                          {| nn.init := nn.bias_uniform; nn.draw := nn.next g |}
            :: nn.Tanh :: default_layers (b :: c :: r) (nn.next (nn.next g))).
    rewrite <- (IH (b :: c :: r)) by (cbn; lia).
    cbn [app nth]. do 4 f_equal.
    assert (E : advance (nn.next (nn.next g)) (2 * n) = advance g (2 * S n)).
    { rewrite !next_is_advance, !advance_advance. f_equal. lia. }
    now rewrite E.
Qed.

(** [__init__] is [init_params] on the default layers. *)
Lemma NeuralNetwork_unfolds (hlayers : list nat) (g : nn.generator) :
  2 <= length hlayers ->
  NeuralNetwork hlayers g
  = init_params (nn.NeuralNetworkObj (nn.Sequential (default_layers hlayers g)))
                (advance g (2 * (length hlayers - 1))).
Proof.
  intros Hlen. unfold NeuralNetwork, slice_to_neg, range.
  rewrite length_firstn, Nat.min_l by lia.
  cbv [bind stmt_monad].
  rewrite (append_hidden_run hlayers (length hlayers - 2) 0 [] g eq_refl) by (cbn; lia).
  unfold getitem_neg, lift.
  destruct (Nat.leb_spec 2 (length hlayers)) as [_|]; [|lia].
  destruct (Nat.leb_spec 1 (length hlayers)) as [_|]; [|lia].
  unfold getitem.
  destruct (nth_error hlayers (length hlayers - 2)) as [a|] eqn:Ha;
    [|apply nth_error_None in Ha; lia].
  destruct (nth_error hlayers (length hlayers - 1)) as [b|] eqn:Hb;
    [|apply nth_error_None in Hb; lia].
  rewrite Linear_new_run. cbn [skipn app].
  apply (nth_error_nth _ _ 0) in Ha. apply (nth_error_nth _ _ 0) in Hb.
  rewrite <- (hidden_pairs_then_last (length hlayers - 2) hlayers g) by lia.
  replace (S (length hlayers - 2)) with (length hlayers - 1) by lia.
  rewrite Ha, Hb, !next_is_advance, !advance_advance.
  replace (2 * (length hlayers - 2) + 1 + 1) with (2 * (length hlayers - 1)) by lia.
  reflexivity.
Qed.

Lemma NeuralNetwork_short (hlayers : list nat) (g : nn.generator) :
  length hlayers < 2 -> NeuralNetwork hlayers g = (g, Raise IndexError).
Proof.
  destruct hlayers as [|a [|b r]]; cbn [length]; intros H; try lia; reflexivity.
Qed.


Lemma default_layers_two (a b : nat) (g : nn.generator) :
  default_layers [a; b] g = [default_Linear a b g].
Proof. reflexivity. Qed.

Lemma default_layers_more (a b c : nat) (r : list nat) (g : nn.generator) :
  default_layers (a :: b :: c :: r) g
  = default_Linear a b g :: nn.Tanh :: default_layers (b :: c :: r) (nn.next (nn.next g)).
Proof. reflexivity. Qed.

(** Induction on lists of at least two widths. *)
Lemma widths_induction (P : list nat -> Prop) :
  (forall a b, P [a; b]) ->
  (forall a b c r, P (b :: c :: r) -> P (a :: b :: c :: r)) ->
  forall ws, 2 <= length ws -> P ws.
Proof.
  intros H2 Hmore ws. induction ws as [|a ws IH]; cbn; [lia|].
  intros Hlen. destruct ws as [|b [|c r]]; cbn in Hlen; [lia|apply H2|].
  apply Hmore. apply IH. cbn. lia.
Qed.

Lemma default_layers_kinds (ws : list nat) :
  2 <= length ws -> forall g, map kind_of (default_layers ws g) = perceptron ws.
Proof.
  revert ws. apply (widths_induction (fun ws => forall g, _ = _)).
  - reflexivity.
  - intros a b c r IH g. rewrite default_layers_more. cbn [map].
    rewrite IH. reflexivity.
Qed.

Lemma default_layers_leaves (ws : list nat) :
  2 <= length ws -> forall g,
    flat_map nn.modules (default_layers ws g) = default_layers ws g.
Proof.
  revert ws. apply (widths_induction (fun ws => forall g, _ = _)).
  - reflexivity.
  - intros a b c r IH g. rewrite default_layers_more. cbn [flat_map].
    rewrite IH. reflexivity.
Qed.

Lemma default_layers_numels (ws : list nat) :
  2 <= length ws -> forall g,
    list_sum (flat_map own_numels (default_layers ws g)) = perceptron_size ws.
Proof.
  revert ws. apply (widths_induction (fun ws => forall g, _ = _)).
  - intros a b g. cbn. lia.
  - intros a b c r IH g. rewrite default_layers_more. cbn [flat_map].
    change (perceptron_size (a :: b :: c :: r))
      with (b * a + b + perceptron_size (b :: c :: r)).
    rewrite <- (IH (nn.next (nn.next g))). cbn. lia.
Qed.

Lemma default_layers_forward (ws : list nat) :
  2 <= length ws -> forall g d,
    nn.forward_width (nn.Sequential (default_layers ws g)) d
    = if d =? hd 0 ws then Ok (last ws 0)
      else Raise (RuntimeError "mat1 and mat2 shapes cannot be multiplied").
Proof.
  revert ws. apply (widths_induction (fun ws => forall g d, _ = _)).
  - intros a b g d. cbn. destruct (d =? a); reflexivity.
  - intros a b c r IH g d. rewrite default_layers_more.
    specialize (IH (nn.next (nn.next g)) b). cbn [hd] in IH.
    rewrite Nat.eqb_refl in IH.
    change (last (a :: b :: c :: r) 0) with (last (b :: c :: r) 0).
    cbn [hd]. rewrite <- IH. cbn.
    destruct (d =? a); reflexivity.
Qed.

(** The [Linear] layers among the default layers, one by one. *)
Lemma default_layers_linears (ws : list nat) :
  2 <= length ws -> forall g,
    filter nn.is_Linear (default_layers ws g)
    = map (fun j => default_Linear (nth j ws 0) (nth (S j) ws 0) (advance g (2 * j)))
          (seq 0 (length ws - 1)).
Proof.
  revert ws. apply (widths_induction (fun ws => forall g, _ = _)).
  - intros a b g. cbn. now rewrite advance_0.
  - intros a b c r IH g. rewrite default_layers_more. cbn [filter nn.is_Linear default_Linear].
    fold (default_Linear a b g). rewrite IH.
    change (length (a :: b :: c :: r) - 1) with (S (length (b :: c :: r) - 1)).
    rewrite <- cons_seq, <- seq_shift, map_cons, map_map.
    cbn [nth]. rewrite Nat.mul_0_r, advance_0. f_equal.
    apply map_ext. intros j. f_equal.
    rewrite !next_is_advance, !advance_advance. f_equal. lia.
Qed.

Lemma kind_of_blank (m : nn.module) : kind_of (blank_weights m) = kind_of m.
Proof. destruct m; reflexivity. Qed.

Lemma forward_width_blank (m : nn.module) :
  forall d, nn.forward_width (blank_weights m) d = nn.forward_width m d.
Proof.
  induction m using module_induction; intros d; cbn [blank_weights nn.forward_width];
    try reflexivity.
  - revert d. induction H as [|c rest Hc _ IH]; intros d; cbn; [reflexivity|].
    rewrite Hc. destruct (nn.forward_width c d); cbn; [apply IH|reflexivity].
  - apply IHm.
Qed.

Lemma numels_blank (m : nn.module) :
  flat_map own_numels (nn.modules (blank_weights m)) = flat_map own_numels (nn.modules m).
Proof.
  induction m using module_induction; cbn [blank_weights nn.modules flat_map own_numels app];
    try reflexivity.
  - induction H as [|c rest Hc _ IH]; cbn; [reflexivity|].
    rewrite !flat_map_app, Hc. f_equal. exact IH.
  - exact IHm.
Qed.

(** What the constructor returns, against the default layers. *)
Lemma NeuralNetwork_built (hlayers : list nat) (g : nn.generator) :
  2 <= length hlayers ->
  exists layers,
    NeuralNetwork hlayers g
    = (advance g (3 * (length hlayers - 1)), Ok (nn.NeuralNetworkObj (nn.Sequential layers))) /\
    map blank_weights layers = map blank_weights (default_layers hlayers g) /\
    linears (nn.NeuralNetworkObj (nn.Sequential layers))
    = refilled (advance g (2 * (length hlayers - 1)))
               (filter nn.is_Linear (default_layers hlayers g)).
Proof.
  intros Hlen. rewrite NeuralNetwork_unfolds by exact Hlen.
  set (pre := nn.NeuralNetworkObj (nn.Sequential (default_layers hlayers g))).
  set (g2 := advance g (2 * (length hlayers - 1))).
  destruct (init_params_trace pre g2) as [net [E Hl]].
  destruct (init_params_reinitializes pre g2) as [g' [net' [E' [Hb _]]]].
  rewrite E in E'. assert (net' = net) by congruence. subst net'. clear E'.
  assert (Hpre : linears pre = filter nn.is_Linear (default_layers hlayers g)).
  { unfold linears, pre. cbn [nn.modules filter nn.is_Linear].
    now rewrite default_layers_leaves by exact Hlen. }
  assert (Hcount : length (linears pre) = length hlayers - 1).
  { rewrite Hpre, default_layers_linears by exact Hlen.
    now rewrite length_map, length_seq. }
  unfold pre in Hb. cbn [blank_weights] in Hb.
  destruct net as [| |cs|[| |layers|]]; try discriminate Hb.
  exists layers. split; [|split].
  - rewrite E. f_equal. unfold g2. rewrite Hcount, advance_advance. f_equal. lia.
  - now inversion Hb.
  - now rewrite Hl, Hpre.
Qed.

Lemma perceptron_length (ws : list nat) :
  2 <= length ws -> length (perceptron ws) = 2 * length ws - 3.
Proof.
  revert ws. apply widths_induction.
  - reflexivity.
  - intros a b c r IH.
    change (perceptron (a :: b :: c :: r))
      with (KLinear a b :: KTanh :: perceptron (b :: c :: r)).
    cbn [length] in *. lia.
Qed.

Lemma refilled_default (ws : list nat) (g g2 : nn.generator) (n : nat) :
  forall s,
    refilled (advance g2 s)
      (map (fun j => default_Linear (nth j ws 0) (nth (S j) ws 0) (advance g (2 * j)))
           (seq s n))
    = map (fun j =>
             nn.Linear (nth j ws 0) (nth (S j) ws 0)
               {| nn.init := nn.xavier_normal (nth j ws 0) (nth (S j) ws 0);
                  nn.draw := advance g2 j |}
               {| nn.init := nn.bias_uniform; nn.draw := advance g (2 * j + 1) |})
          (seq s n).
Proof.
  induction n as [|n IH]; intros s; [reflexivity|].
  cbn [seq map]. unfold default_Linear at 1. cbn [refilled].
  rewrite !next_advance, IH.
  replace (S (2 * s)) with (2 * s + 1) by lia. reflexivity.
Qed.

(** X2. The constructor needs two widths.  With fewer it raises
    [IndexError] (from [hlayers[-2]]) before any tensor is drawn; with two or
    more it returns, having drawn three tensors per [Linear] layer: a
    default weight, a default bias and the Xavier weight. *)
Theorem NeuralNetwork_needs_two_widths (hlayers : list nat) (g : nn.generator) :
  (length hlayers < 2 -> NeuralNetwork hlayers g = (g, Raise IndexError)) /\
  (2 <= length hlayers ->
   exists net, NeuralNetwork hlayers g
               = ({| nn.seed := nn.seed g;
                     nn.drawn := nn.drawn g + 3 * (length hlayers - 1) |}, Ok net)).
Proof.
  split; [apply NeuralNetwork_short|].
  intros Hlen. destruct (@NeuralNetwork_built hlayers g Hlen) as [layers [E _]].
  eexists. exact E.
Qed.

(** X3. For any list of at least two widths the constructor returns the
    multilayer perceptron of those widths: a [Sequential] of a [Linear]
    between consecutive widths with a [Tanh] between consecutive
    [Linear]s, [2 * len(hlayers) - 3] layers in all. *)
Theorem NeuralNetwork_is_perceptron (hlayers : list nat) (g : nn.generator) :
  2 <= length hlayers ->
  exists g' layers,
    NeuralNetwork hlayers g = (g', Ok (nn.NeuralNetworkObj (nn.Sequential layers))) /\
    map kind_of layers = perceptron hlayers /\
    length layers = 2 * length hlayers - 3.
Proof.
  intros Hlen. destruct (@NeuralNetwork_built hlayers g Hlen) as [layers [E [Hb _]]].
  assert (Hk : map kind_of layers = perceptron hlayers).
  { rewrite <- (@default_layers_kinds hlayers Hlen g).
    rewrite <- (map_ext _ _ kind_of_blank layers).
    rewrite <- (map_ext _ _ kind_of_blank (default_layers hlayers g)).
    rewrite <- (map_map blank_weights kind_of layers).
    rewrite <- (map_map blank_weights kind_of (default_layers hlayers g)).
    now rewrite Hb. }
  eexists _, layers. split; [exact E|]. split; [exact Hk|].
  now rewrite <- (length_map kind_of), Hk, perceptron_length.
Qed.

Lemma NeuralNetwork_is_perceptron_witness :
  exists g' layers,
    NeuralNetwork [3; 4; 1] (manual_seed 7)
    = (g', Ok (nn.NeuralNetworkObj (nn.Sequential layers))) /\
    map kind_of layers = perceptron [3; 4; 1] /\
    length layers = 2 * length [3; 4; 1] - 3.
Proof.
  apply (NeuralNetwork_is_perceptron [3; 4; 1] (manual_seed 7)). cbn. lia.
Defined.

(** X4. A network built from at least two widths takes inputs whose last
    dimension is the first width, and only those, to outputs whose last
    dimension is the last width: the widths in between never clash. *)
Theorem NeuralNetwork_forward_width (hlayers : list nat) (g : nn.generator) :
  2 <= length hlayers ->
  exists g' net,
    NeuralNetwork hlayers g = (g', Ok net) /\
    forall d, forward_width net d
              = if d =? hd 0 hlayers then Ok (last hlayers 0)
                else Raise (RuntimeError "mat1 and mat2 shapes cannot be multiplied").
Proof.
  intros Hlen. destruct (@NeuralNetwork_built hlayers g Hlen) as [layers [E [Hb _]]].
  eexists _, _. split; [exact E|]. intros d. unfold forward_width.
  rewrite <- forward_width_blank. cbn [blank_weights]. rewrite Hb.
  change (nn.forward_width
            (blank_weights (nn.NeuralNetworkObj (nn.Sequential (default_layers hlayers g)))) d
          = if d =? hd 0 hlayers then Ok (last hlayers 0)
            else Raise (RuntimeError "mat1 and mat2 shapes cannot be multiplied")).
  rewrite forward_width_blank. cbn [nn.forward_width].
  now apply default_layers_forward.
Qed.

Lemma NeuralNetwork_forward_width_witness :
  exists g' net,
    NeuralNetwork [3; 4; 1] (manual_seed 7) = (g', Ok net) /\
    forall d, forward_width net d
              = if d =? hd 0 [3; 4; 1] then Ok (last [3; 4; 1] 0)
                else Raise (RuntimeError "mat1 and mat2 shapes cannot be multiplied").
Proof.
  apply (NeuralNetwork_forward_width [3; 4; 1] (manual_seed 7)). cbn. lia.
Defined.

(** X5. The count of trainable parameters that cell 11 prints is, for any
    list of at least two widths, the sum over consecutive widths [a], [b]
    of [b * a + b]; for the notebook's [hidden_layers] it is 261. *)
Theorem nparams_is_perceptron_size (hlayers : list nat) (g : nn.generator) :
  2 <= length hlayers ->
  exists g' net,
    NeuralNetwork hlayers g = (g', Ok net) /\
    nparams net = perceptron_size hlayers /\
    perceptron_size hidden_layers = 261.
Proof.
  intros Hlen. destruct (@NeuralNetwork_built hlayers g Hlen) as [layers [E [Hb _]]].
  eexists _, _. split; [exact E|]. split; [|reflexivity].
  unfold nparams. rewrite <- numels_blank. cbn [blank_weights]. rewrite Hb.
  change (list_sum (flat_map own_numels
            (nn.modules (blank_weights
               (nn.NeuralNetworkObj (nn.Sequential (default_layers hlayers g))))))
          = perceptron_size hlayers).
  rewrite numels_blank. cbn [nn.modules flat_map own_numels app].
  rewrite default_layers_leaves by exact Hlen.
  now apply default_layers_numels.
Qed.

Lemma nparams_is_perceptron_size_witness :
  exists g' net,
    NeuralNetwork hidden_layers (manual_seed 123) = (g', Ok net) /\
    nparams net = perceptron_size hidden_layers /\
    perceptron_size hidden_layers = 261.
Proof.
  apply (nparams_is_perceptron_size hidden_layers (manual_seed 123)). cbn. lia.
Defined.

(** X6. In a network built from at least two widths, from a generator at
    [g], the [j]-th [Linear] goes from width [j] to width [j + 1]; its bias
    is the default one, the draw [2 * j + 1] after [g]; its weight is a
    Xavier fill with fan-in and fan-out its two widths, drawn after the
    defaults of all layers, the draw [2 * (len - 1) + j] after [g].  The
    default weights are all overwritten. *)
Theorem NeuralNetwork_parameters (hlayers : list nat) (g : nn.generator) :
  2 <= length hlayers ->
  exists g' net,
    NeuralNetwork hlayers g = (g', Ok net) /\
    linears net
    = map (fun j =>
             nn.Linear (nth j hlayers 0) (nth (S j) hlayers 0)
               {| nn.init := nn.xavier_normal (nth j hlayers 0) (nth (S j) hlayers 0);
                  nn.draw := advance g (2 * (length hlayers - 1) + j) |}
               {| nn.init := nn.bias_uniform; nn.draw := advance g (2 * j + 1) |})
          (seq 0 (length hlayers - 1)).
Proof.
  intros Hlen. destruct (@NeuralNetwork_built hlayers g Hlen) as [layers [E [_ Hl]]].
  eexists _, _. split; [exact E|]. rewrite Hl.
  rewrite default_layers_linears by exact Hlen.
  rewrite <- (advance_0 (advance g (2 * (length hlayers - 1)))) at 1.
  rewrite refilled_default. apply map_ext. intros j.
  now rewrite advance_advance.
Qed.

Lemma NeuralNetwork_parameters_witness :
  exists g' net,
    NeuralNetwork [3; 4; 1] (manual_seed 7) = (g', Ok net) /\
    linears net
    = map (fun j =>
             nn.Linear (nth j [3; 4; 1] 0) (nth (S j) [3; 4; 1] 0)
               {| nn.init := nn.xavier_normal (nth j [3; 4; 1] 0) (nth (S j) [3; 4; 1] 0);
                  nn.draw := advance (manual_seed 7) (2 * (length [3; 4; 1] - 1) + j) |}
               {| nn.init := nn.bias_uniform; nn.draw := advance (manual_seed 7) (2 * j + 1) |})
          (seq 0 (length [3; 4; 1] - 1)).
Proof.
  apply (NeuralNetwork_parameters [3; 4; 1] (manual_seed 7)). cbn. lia.
Defined.

End NetworkInGeneral.

(* ================================================================= *)
(** * Shared facts *)

(** The value [relative_l2_error] returns on tensors of one size. *)
Lemma relative_l2_error_ratio (u_num u_ref : list R) :
  length u_num = length u_ref ->
  relative_l2_error u_num u_ref
  = Ok (euclidean_norm (vector_difference u_num u_ref) / euclidean_norm u_ref)%R.
Proof.
  intros Hlen. unfold relative_l2_error, torch.sub.
  apply Nat.eqb_eq in Hlen. rewrite Hlen.
  cbv [bind ret result_monad].
  now rewrite !norm_is_euclidean, zip_sub_is_difference.
Qed.

(* ================================================================= *)
(** * [relative_l2_error] as a measure of error *)

Section RelativeErrorInGeneral.

Local Open Scope R_scope.

Lemma sum_squares_nonneg (v : list R) : 0 <= fold_right Rplus 0 (map Rsqr v).
Proof.
  induction v as [|x v IH]; cbn; [lra|]. pose proof (Rle_0_sqr x). lra.
Qed.

Lemma euclidean_norm_nonneg (v : list R) : 0 <= euclidean_norm v.
Proof. apply sqrt_pos. Qed.

Lemma sum_squares_zero_iff (v : list R) :
  fold_right Rplus 0 (map Rsqr v) = 0 <-> Forall (fun x => x = 0) v.
Proof.
  induction v as [|x v IH]; cbn.
  - split; [constructor|reflexivity].
  - pose proof (Rle_0_sqr x). pose proof (sum_squares_nonneg v). split.
    + intros Hs. assert (Hx : Rsqr x = 0) by lra.
      constructor; [now apply Rsqr_0_uniq|]. apply IH. lra.
    + intros Hall. inversion Hall as [|? ? Hx Hv]; subst.
      apply IH in Hv. rewrite Hv, Rsqr_0. lra.
Qed.

Lemma euclidean_norm_zero_iff (v : list R) :
  euclidean_norm v = 0 <-> Forall (fun x => x = 0) v.
Proof.
  unfold euclidean_norm. rewrite <- sum_squares_zero_iff. split.
  - intros H. apply sqrt_eq_0; [apply sum_squares_nonneg|exact H].
  - intros ->. apply sqrt_0.
Qed.

Lemma vector_difference_zero_iff (u v : list R) :
  length u = length v ->
  (Forall (fun x => x = 0) (vector_difference u v) <-> u = v).
Proof.
  unfold vector_difference.
  revert v; induction u as [|a u IH]; intros [|b v]; cbn; intros Hlen; try discriminate.
  - split; [reflexivity|constructor].
  - injection Hlen as Hlen. specialize (IH v Hlen). split.
    + intros Hall. inversion Hall as [|? ? Hab Huv]; subst.
      apply IH in Huv. subst. f_equal. lra.
    + intros [= -> ->]. constructor; [lra|]. now apply IH.
Qed.

Lemma euclidean_norm_scale (c : R) (v : list R) :
  euclidean_norm (map (Rmult c) v) = Rabs c * euclidean_norm v.
Proof.
  unfold euclidean_norm.
  assert (E : fold_right Rplus 0 (map Rsqr (map (Rmult c) v))
              = Rsqr c * fold_right Rplus 0 (map Rsqr v)).
  { induction v as [|x v IH]; cbn; [lra|]. rewrite IH, Rsqr_mult. lra. }
  rewrite E, sqrt_mult; [|apply Rle_0_sqr|apply sum_squares_nonneg].
  now rewrite sqrt_Rsqr_abs.
Qed.

Lemma vector_difference_scale (c : R) (u v : list R) :
  vector_difference (map (Rmult c) u) (map (Rmult c) v)
  = map (Rmult c) (vector_difference u v).
Proof.
  unfold vector_difference.
  revert v; induction u as [|a u IH]; intros [|b v]; cbn; try reflexivity.
  rewrite IH. f_equal. lra.
Qed.





End RelativeErrorInGeneral.

Section RelativeErrorEdges.

Lemma sub_returns_or_raises {F : Type} `{Scalar F} (a b : torch.tensor F) :
  (broadcastable a b -> exists d, torch.sub a b = Ok d) /\
  (~ broadcastable a b -> torch.sub a b = Raise (RuntimeError "sub: sizes do not match")).
Proof.
  unfold torch.sub, broadcastable.
  destruct (Nat.eqb_spec (length a) (length b)) as [E|E].
  - split; [eauto|]. intros Hn. exfalso. apply Hn. now left.
  - destruct a as [|x [|x' a]]; destruct b as [|y [|y' b]]; cbn [length] in *;
      (split; [intros [Hc|[Hc|Hc]]; try lia; try discriminate; eauto
              |intros Hn; try reflexivity; exfalso; apply Hn; auto]).
Qed.

(** X9. [relative_l2_error] has no check of its own: on one-dimensional
    tensors it returns whenever the subtraction is defined (equal sizes, or
    one operand of size 1), the empty tensors included, and otherwise lets
    torch's [RuntimeError] through. *)
Theorem relative_l2_error_returns_iff (F : Type) (SF : Scalar F) (u_num u_ref : torch.tensor F) :
  (broadcastable u_num u_ref <-> exists r, relative_l2_error u_num u_ref = Ok r) /\
  (~ broadcastable u_num u_ref <->
   relative_l2_error u_num u_ref = Raise (RuntimeError "sub: sizes do not match")).
Proof.
  destruct (sub_returns_or_raises u_num u_ref) as [Hok Hno].
  assert (Hdec : broadcastable u_num u_ref \/ ~ broadcastable u_num u_ref).
  { unfold broadcastable.
    destruct (Nat.eq_dec (length u_num) (length u_ref)); [now left; left|].
    destruct (Nat.eq_dec (length u_num) 1); [now left; right; left|].
    destruct (Nat.eq_dec (length u_ref) 1); [now left; right; right|].
    right. intros [?|[?|?]]; contradiction. }
  unfold relative_l2_error. split; split.
  - intros Hc. destruct (Hok Hc) as [d ->]. cbv [bind ret result_monad]. eauto.
  - intros [r Hr]. destruct Hdec as [Hc|Hn]; [exact Hc|].
    rewrite (Hno Hn) in Hr. discriminate Hr.
  - intros Hn. now rewrite (Hno Hn).
  - intros Hr Hc. destruct (Hok Hc) as [d Hd]. rewrite Hd in Hr. discriminate Hr.
Qed.

Lemma sum_squares_nan (v : list binary32) :
  fold_left (fun acc x => fadd acc (fmul x x)) v S754_nan = S754_nan.
Proof. induction v as [|x v IH]; cbn; [reflexivity|exact IH]. Qed.

Lemma sum_squares_has_nan (v : list binary32) :
  In S754_nan v ->
  forall acc, fold_left (fun acc x => fadd acc (fmul x x)) v acc = S754_nan.
Proof.
  induction v as [|x v IH]; intros Hin acc; [contradiction|].
  cbn [fold_left]. destruct Hin as [->|Hin].
  - replace (fadd acc (fmul S754_nan S754_nan)) with S754_nan
      by (destruct acc; reflexivity).
    apply sum_squares_nan.
  - now apply IH.
Qed.

Lemma norm_has_nan (v : list binary32) : In S754_nan v -> torch.norm v = S754_nan.
Proof. intros Hin. unfold torch.norm. now rewrite sum_squares_has_nan. Qed.

Lemma div_nan_r (x : binary32) : fdiv x S754_nan = S754_nan.
Proof. destruct x; reflexivity. Qed.

Lemma zip_sub_has_nan (a b : list binary32) :
  length a = length b -> In S754_nan a -> In S754_nan (zip_with fsub a b).
Proof.
  revert b; induction a as [|x a IH]; intros [|y b] Hlen Hin; cbn in *;
    try contradiction; try discriminate.
  destruct Hin as [->|Hin]; [now left|]. right. apply IH; [lia|exact Hin].
Qed.

(** X10. NaNs are not filtered: in binary32, on operands the subtraction
    accepts, a NaN anywhere in either tensor makes the relative error NaN. *)
Theorem relative_l2_error_propagates_nan (u_num u_ref : list binary32) :
  broadcastable u_num u_ref ->
  In S754_nan u_num \/ In S754_nan u_ref ->
  relative_l2_error u_num u_ref = Ok S754_nan.
Proof.
  intros Hc Hnan. unfold relative_l2_error.
  destruct (proj1 (sub_returns_or_raises u_num u_ref) Hc) as [d Hd].
  rewrite Hd. cbv [bind ret result_monad]. f_equal.
  destruct (in_dec (fun x y : binary32 => ltac:(decide equality; try apply Bool.bool_dec;
                      try apply Pos.eq_dec; apply Z.eq_dec) : {x = y} + {x <> y})
                   S754_nan u_ref) as [Href|Href].
  - rewrite (norm_has_nan _ Href). apply div_nan_r.
  - destruct Hnan as [Hnum|Href']; [|contradiction].
    unfold torch.sub in Hd.
    destruct (Nat.eqb_spec (length u_num) (length u_ref)) as [E|E].
    + apply Ok_inj in Hd. subst d.
      now rewrite (norm_has_nan _ (zip_sub_has_nan _ _ E Hnum)).
    + destruct u_num as [|x [|x' u]]; [contradiction| |].
      * destruct Hnum as [->|[]]. apply Ok_inj in Hd. subst d.
        destruct u_ref as [|y v]; [reflexivity|].
        rewrite (norm_has_nan (map (fun y0 => fsub S754_nan y0) (y :: v)))
          by (now left).
        reflexivity.
      * destruct u_ref as [|y [|y' v]]; try discriminate Hd.
        apply Ok_inj in Hd. subst d.
        rewrite (norm_has_nan (map (fun x0 => fsub x0 y) (x :: x' :: u))).
        -- reflexivity.
        -- apply in_map_iff. exists S754_nan. split; [reflexivity|exact Hnum].
Qed.

Lemma relative_l2_error_propagates_nan_witness :
  relative_l2_error [three; S754_nan] [three; four] = Ok S754_nan.
Proof.
  apply (@relative_l2_error_propagates_nan [three; S754_nan] [three; four]).
  - left. reflexivity.
  - left. right. left. reflexivity.
Defined.

End RelativeErrorEdges.

(* ================================================================= *)
(** * The analytical solution *)

Section AnalyticalSolution.

Local Open Scope R_scope.

Lemma formula_row (x : list R) (ti : R) :
  zip_with Rmult
    (map Rtrigo_def.exp (map Ropp (map (fun _ => ti) x)))
    (map Rtrigo_def.sin (map (Rmult np.pi) x))
  = map (fun xj => analytic_diffusion_at xj ti) x.
Proof. induction x as [|xj x IH]; cbn; [reflexivity|]. now rewrite IH. Qed.

(** The table of the formula over two coordinate lists. *)
Lemma analytic_diffusion_meshgrid (x t : list R) :
  analytic_diffusion (fst (np.meshgrid x t)) (snd (np.meshgrid x t))
  = map (fun ti => map (fun xj => analytic_diffusion_at xj ti) x) t.
Proof.
  unfold analytic_diffusion, np.multiply, np.ufunc2, np.exp, np.sin, np.negative,
    np.scalar_multiply, np.ufunc1, np.meshgrid. cbn [fst snd].
  induction t as [|ti t IH]; cbn [map zip_with]; [reflexivity|].
  now rewrite IH, formula_row.
Qed.

Lemma U_mesh_table :
  U_mesh = map (fun ti => map (fun xj => analytic_diffusion_at xj ti) x_mesh) t_mesh.
Proof. apply analytic_diffusion_meshgrid. Qed.

(** X11. For any two coordinate lists, [analytic_diffusion] applied to
    their [meshgrid] is the table of the formula: one row per element of
    [t], one column per element of [x], and at row [i], column [j] the
    value [e^(-t[i]) * sin(pi * x[j])]. *)
Theorem analytic_diffusion_on_any_mesh (x t : list R) :
  let U := analytic_diffusion (fst (np.meshgrid x t)) (snd (np.meshgrid x t)) in
  length U = length t /\
  (forall i, (i < length t)%nat -> length (nth i U []) = length x) /\
  (forall i j, (i < length t)%nat -> (j < length x)%nat ->
     np.item2 U i j = Rtrigo_def.exp (- nth i t 0) * Rtrigo_def.sin (PI * nth j x 0)).
Proof.
  cbv zeta. rewrite analytic_diffusion_meshgrid. split; [apply length_map|]. split.
  - intros i Hi. rewrite (map_nth_in _ _ 0) by exact Hi. apply length_map.
  - intros i j Hi Hj. unfold np.item2.
    rewrite (map_nth_in _ _ 0) by exact Hi.
    rewrite (map_nth_in _ _ 0) by exact Hj. reflexivity.
Qed.

Lemma sin_minus_PI : Rtrigo_def.sin (PI * -1) = 0.
Proof.
  replace (PI * -1) with (- PI) by lra. rewrite sin_neg, sin_PI. lra.
Qed.

Lemma sin_plus_PI : Rtrigo_def.sin (PI * 1) = 0.
Proof. rewrite Rmult_1_r. apply sin_PI. Qed.


Lemma time_derivative (x t : R) :
  derivable_pt_lim (fun tau => analytic_diffusion_at x tau) t
                   (- (Rtrigo_def.exp (- t) * Rtrigo_def.sin (PI * x))).
Proof.
  apply (derivable_pt_lim_ext
           (fun tau => (comp Rtrigo_def.exp (- id)%F) tau * Rtrigo_def.sin (PI * x))).
  - intros tau. reflexivity.
  - replace (- (Rtrigo_def.exp (- t) * Rtrigo_def.sin (PI * x)))
      with (Rtrigo_def.exp (- t) * -1 * Rtrigo_def.sin (PI * x)) by ring.
    apply derivable_pt_lim_scal_right.
    apply (derivable_pt_lim_comp (- id)%F Rtrigo_def.exp t (-1) (Rtrigo_def.exp (- t))).
    + apply derivable_pt_lim_opp, derivable_pt_lim_id.
    + apply derivable_pt_lim_exp.
Qed.

Lemma space_derivative (t xi : R) :
  derivable_pt_lim (fun z => analytic_diffusion_at z t) xi
                   (PI * Rtrigo_def.exp (- t) * Rtrigo_def.cos (PI * xi)).
Proof.
  apply (derivable_pt_lim_ext
           (mult_real_fct (Rtrigo_def.exp (- t))
                          (comp Rtrigo_def.sin (mult_real_fct PI id)))).
  - intros z. reflexivity.
  - replace (PI * Rtrigo_def.exp (- t) * Rtrigo_def.cos (PI * xi))
      with (Rtrigo_def.exp (- t) * (Rtrigo_def.cos (PI * xi) * (PI * 1))) by ring.
    apply derivable_pt_lim_scal.
    apply (derivable_pt_lim_comp (mult_real_fct PI id) Rtrigo_def.sin xi (PI * 1)
                                 (Rtrigo_def.cos (PI * xi))).
    + apply derivable_pt_lim_scal, derivable_pt_lim_id.
    + apply derivable_pt_lim_sin.
Qed.

Lemma second_space_derivative (t x : R) :
  derivable_pt_lim (fun xi => PI * Rtrigo_def.exp (- t) * Rtrigo_def.cos (PI * xi)) x
                   (- (PI * PI * Rtrigo_def.exp (- t) * Rtrigo_def.sin (PI * x))).
Proof.
  apply (derivable_pt_lim_ext
           (mult_real_fct (PI * Rtrigo_def.exp (- t))
                          (comp Rtrigo_def.cos (mult_real_fct PI id)))).
  - intros z. reflexivity.
  - replace (- (PI * PI * Rtrigo_def.exp (- t) * Rtrigo_def.sin (PI * x)))
      with (PI * Rtrigo_def.exp (- t) * (- Rtrigo_def.sin (PI * x) * (PI * 1))) by ring.
    apply derivable_pt_lim_scal.
    apply (derivable_pt_lim_comp (mult_real_fct PI id) Rtrigo_def.cos x (PI * 1)
                                 (- Rtrigo_def.sin (PI * x))).
    + apply derivable_pt_lim_scal, derivable_pt_lim_id.
    + apply derivable_pt_lim_cos.
Qed.

(** X13. The analytical solution solves the heat equation of cell 0 with
    [kappa = 1]: at every point its derivative in time is its second
    derivative in space plus the source term
    [- e^(-t) (sin(pi x) - pi^2 sin(pi x))]. *)
Theorem analytic_solution_solves_heat_equation (x t : R) :
  analytic_diffusion [[x]] [[t]] = [[analytic_diffusion_at x t]] /\
  exists (u_t : R) (u_x : R -> R) (u_xx : R),
    derivable_pt_lim (fun tau => analytic_diffusion_at x tau) t u_t /\
    (forall xi, derivable_pt_lim (fun z => analytic_diffusion_at z t) xi (u_x xi)) /\
    derivable_pt_lim u_x x u_xx /\
    u_t = u_xx + heat_source x t.
Proof.
  split; [reflexivity|].
  exists (- (Rtrigo_def.exp (- t) * Rtrigo_def.sin (PI * x))),
         (fun xi => PI * Rtrigo_def.exp (- t) * Rtrigo_def.cos (PI * xi)),
         (- (PI * PI * Rtrigo_def.exp (- t) * Rtrigo_def.sin (PI * x))).
  split; [apply time_derivative|]. split; [intros xi; apply space_derivative|].
  split; [apply second_space_derivative|]. unfold heat_source. ring.
Qed.

Lemma exp_neg_le_1 (t : R) : 0 <= t -> Rtrigo_def.exp (- t) <= 1.
Proof.
  intros [Ht|<-].
  - rewrite <- exp_0. left. apply exp_increasing. lra.
  - rewrite Ropp_0, exp_0. lra.
Qed.

Lemma analytic_diffusion_at_bound (x t : R) :
  Rabs (analytic_diffusion_at x t) <= Rtrigo_def.exp (- t).
Proof.
  unfold analytic_diffusion_at. rewrite Rabs_mult.
  rewrite (Rabs_pos_eq (Rtrigo_def.exp (- t))) by (left; apply exp_pos).
  rewrite <- (Rmult_1_r (Rtrigo_def.exp (- t))) at 2.
  apply Rmult_le_compat_l; [left; apply exp_pos|].
  apply Rabs_le. apply SIN_bound.
Qed.

Lemma t_mesh_nonneg (i : nat) : (i < 100)%nat -> 0 <= nth i t_mesh 0 <= 2.
Proof.
  intros Hi. unfold t_mesh, dom_samples. rewrite linspace_nth by lia.
  change (100 - 1)%nat with 99%nat. rewrite INR_99.
  assert (H0 : 0 <= INR i) by apply pos_INR.
  assert (H99 : INR i <= 99).
  { rewrite <- INR_99. apply le_INR. lia. }
  lra.
Qed.

(** X14. The analytical solution decays: at every point its absolute
    value is at most [e^(-t)], hence at most 1 for [t >= 0]; every value of
    [U] on the mesh lies between -1 and 1. *)
Theorem analytic_solution_decays :
  (forall x t, Rabs (analytic_diffusion_at x t) <= Rtrigo_def.exp (- t)) /\
  (forall x t, 0 <= t -> -1 <= analytic_diffusion_at x t <= 1) /\
  (forall i j, (i < 100)%nat -> (j < 100)%nat -> -1 <= np.item2 U_mesh i j <= 1).
Proof.
  assert (H1 : forall x t, 0 <= t -> -1 <= analytic_diffusion_at x t <= 1).
  { intros x t Ht. pose proof (analytic_diffusion_at_bound x t) as Hb.
    pose proof (exp_neg_le_1 Ht) as He.
    pose proof (Rle_abs (analytic_diffusion_at x t)) as Hu.
    pose proof (Rle_abs (- analytic_diffusion_at x t)) as Hl.
    rewrite Rabs_Ropp in Hl. lra. }
  split; [exact analytic_diffusion_at_bound|]. split; [exact H1|].
  intros i j Hi Hj. rewrite U_mesh_item by assumption.
  apply H1. now apply t_mesh_nonneg.
Qed.

End AnalyticalSolution.

(* ================================================================= *)
(** * Cell 14: what is compared with what *)

Section Evaluation.

Local Open Scope R_scope.

Lemma concat_table_length {A B C : Type} (g : A -> B -> C) (x : list B) (t : list A) :
  length (concat (map (fun ti => map (g ti) x) t)) = (length t * length x)%nat.
Proof.
  induction t as [|ti t IH]; cbn; [reflexivity|].
  now rewrite length_app, length_map, IH.
Qed.

(** Row-major order: element [len(x) * i + j] of a flattened table is its
    entry at row [i], column [j]. *)
Lemma concat_table_nth {A B C : Type} (g : A -> B -> C) (x : list B) (t : list A)
      (da : A) (db : B) (dc : C) :
  forall i j, (i < length t)%nat -> (j < length x)%nat ->
    nth (length x * i + j) (concat (map (fun ti => map (g ti) x) t)) dc
    = g (nth i t da) (nth j x db).
Proof.
  induction t as [|ti t IH]; intros i j Hi Hj; cbn in Hi; [lia|].
  cbn [map concat]. destruct i as [|i].
  - rewrite Nat.mul_0_r, Nat.add_0_l, app_nth1 by (rewrite length_map; exact Hj).
    now rewrite (map_nth_in _ _ db) by exact Hj.
  - rewrite app_nth2 by (rewrite length_map; lia).
    rewrite length_map.
    replace (length x * S i + j - length x)%nat with (length x * i + j)%nat by lia.
    apply IH; [lia|exact Hj].
Qed.

Lemma X_mesh_table : X_mesh = map (fun _ => map (fun xj => xj) x_mesh) t_mesh.
Proof. unfold X_mesh, np.meshgrid. cbn [fst]. now rewrite map_id. Qed.

Lemma T_mesh_table : T_mesh = map (fun ti => map (fun _ => ti) x_mesh) t_mesh.
Proof. reflexivity. Qed.

Lemma mesh_lengths :
  length x_mesh = 100%nat /\ length t_mesh = 100%nat /\
  length (concat X_mesh) = (100 * 100)%nat /\ length (concat T_mesh) = (100 * 100)%nat /\
  length (concat U_mesh) = (100 * 100)%nat.
Proof.
  assert (Hx : length x_mesh = 100%nat) by apply linspace_length.
  assert (Ht : length t_mesh = 100%nat) by apply linspace_length.
  rewrite X_mesh_table, T_mesh_table, U_mesh_table, !concat_table_length, Hx, Ht.
  repeat split; reflexivity.
Qed.

(** X15. In cell 14 the prediction and the reference are aligned.  The
    flattened inputs pair, at position [100 * i + j], the [i]-th time with
    the [j]-th abscissa; [torch.cat] accepts them (10000 rows); and the
    flattened [U] holds at that position the analytical solution at that
    abscissa and that time. *)
Theorem evaluation_points_aligned (F : Type) (fl : R -> F) :
  let X_ten := map fl (concat X_mesh) in
  let T_ten := map fl (concat T_mesh) in
  torch.cat_dim1 T_ten X_ten = Ok (combine T_ten X_ten) /\
  length (combine T_ten X_ten) = (100 * 100)%nat /\
  forall i j, (i < 100)%nat -> (j < 100)%nat ->
    nth (100 * i + j) (combine T_ten X_ten) (fl 0, fl 0)
    = (fl (nth i t_mesh 0), fl (nth j x_mesh 0)) /\
    nth (100 * i + j) (concat U_mesh) 0
    = Rtrigo_def.exp (- nth i t_mesh 0) * Rtrigo_def.sin (PI * nth j x_mesh 0).
Proof.
  cbv zeta. destruct mesh_lengths as [Hx [Ht [HX [HT HU]]]].
  split; [|split].
  - unfold torch.cat_dim1. now rewrite !length_map, HX, HT.
  - now rewrite length_combine, !length_map, HX, HT.
  - intros i j Hi Hj.
    assert (Hk : (100 * i + j < 100 * 100)%nat) by lia.
    assert (E : forall g : R -> R -> R,
               nth (100 * i + j) (concat (map (fun ti => map (g ti) x_mesh) t_mesh)) 0
               = g (nth i t_mesh 0) (nth j x_mesh 0)).
    { intros g. pose proof (concat_table_nth g x_mesh t_mesh 0 0 0 (i := i) (j := j)) as H.
      rewrite Hx in H. apply H; lia. }
    split.
    + rewrite combine_nth by (now rewrite !length_map, HX, HT).
      rewrite !(map_nth_in _ _ 0) by lia.
      rewrite X_mesh_table, T_mesh_table.
      now rewrite (E (fun _ xj => xj)), (E (fun ti _ => ti)).
    + rewrite U_mesh_table. now rewrite (E (fun ti xj => analytic_diffusion_at xj ti)).
Qed.

Lemma sum_squares_positive (v : list R) (a : R) :
  In a v -> a <> 0 -> 0 < fold_right Rplus 0 (map Rsqr v).
Proof.
  intros Hin Ha. pose proof (sum_squares_nonneg v) as Hn.
  destruct (Req_dec (fold_right Rplus 0 (map Rsqr v)) 0) as [E|E]; [|lra].
  apply sum_squares_zero_iff in E. rewrite Forall_forall in E.
  specialize (E a Hin). contradiction.
Qed.

Lemma INR_50 : INR 50 = 50.
Proof. rewrite INR_IZR_INZ. reflexivity. Qed.

Lemma U_mesh_not_zero : 0 < euclidean_norm (concat U_mesh).
Proof.
  destruct mesh_lengths as [Hx [Ht _]].
  set (a := analytic_diffusion_at (nth 50 x_mesh 0) (nth 0 t_mesh 0)).
  assert (Hin : In a (concat U_mesh)).
  { rewrite U_mesh_table. apply in_concat.
    exists (map (fun xj => analytic_diffusion_at xj (nth 0 t_mesh 0)) x_mesh). split.
    - apply (in_map (fun ti => map (fun xj => analytic_diffusion_at xj ti) x_mesh)).
      apply nth_In. lia.
    - apply (in_map (fun xj => analytic_diffusion_at xj (nth 0 t_mesh 0))).
      apply nth_In. lia. }
  assert (Ha : 0 < a).
  { unfold a, analytic_diffusion_at, x_mesh, t_mesh, dom_samples, np.pi.
    rewrite !linspace_nth by lia. change (100 - 1)%nat with 99%nat.
    rewrite INR_99, INR_50. cbn [INR].
    apply Rmult_lt_0_compat; [apply exp_pos|].
    pose proof PI_RGT_0. apply sin_gt_0; nra. }
  unfold euclidean_norm. apply sqrt_lt_R0.
  apply (sum_squares_positive _ Hin). lra.
Qed.

(** X16. The reference of cell 14 is not the zero tensor: the Euclidean
    norm of [U] on the mesh is positive.  So, in exact arithmetic, for any
    prediction of 10000 values [relative_l2_error] returns the ratio of
    norms with a nonzero divisor. *)
Theorem evaluation_reference_not_zero :
  0 < euclidean_norm (concat U_mesh) /\
  forall U_pred : list R,
    length U_pred = (100 * 100)%nat ->
    relative_l2_error U_pred (concat U_mesh)
    = Ok (euclidean_norm (vector_difference U_pred (concat U_mesh))
          / euclidean_norm (concat U_mesh)).
Proof.
  split; [exact U_mesh_not_zero|].
  intros U_pred Hlen. apply relative_l2_error_ratio.
  destruct mesh_lengths as [_ [_ [_ [_ HU]]]]. now rewrite Hlen, HU.
Qed.

End Evaluation.

(* ================================================================= *)
(** * The training loop, for any loss *)

Section LoopInGeneral.

Context {F : Type} {SF : Scalar F}.
Variable Theta : Type.
Variable rt : Runtime (F := F) Theta.
Variable loss_fn : loss_function (F := F).
Variables x_ten t_ten : torch.tensor F.

Lemma flat_map_after_map {A B C : Type} (f : B -> list C) (g : A -> B) (l : list A) :
  flat_map f (map g l) = flat_map (fun x => f (g x)) l.
Proof. induction l as [|x l IH]; cbn; [reflexivity|now rewrite IH]. Qed.

(** What one iteration leaves behind, however it ends. *)
Lemma iteration_outcome (i : nat) (s s1 : session (F := F) Theta) (r : result unit) :
  iteration rt loss_fn x_ten t_ten i s = (s1, r) ->
  match r with
  | Ok _ =>
      exists v, loss_values s1 = loss_values s ++ [v] /\
                stdout s1 = stdout s ++ iteration_lines (F := F) i v
  | Raise e =>
      (loss_values s1 = loss_values s /\ stdout s1 = stdout s) \/
      (exists v, loss_values s1 = loss_values s ++ [v] /\
                 stdout s1 = stdout s ++ iteration_lines (F := F) i v /\
                 update_raises rt loss_fn x_ten t_ten s v e)
  end.
Proof.
  unfold update_raises, iteration_lines.
  cbv [iteration bind ret stmt_monad lift get modify set_u_pinn append_loss print].
  destruct (zero_grad rt (u_pinn s)) as [m0|e0] eqn:Hz;
    [|intros [= <- <-]; left; split; reflexivity].
  destruct (loss_fn (forward rt m0) x_ten t_ten) as [loss|e1] eqn:Hl;
    [|intros [= <- <-]; left; split; reflexivity].
  destruct loss as [v|repr]; cbn [item];
    [|intros [= <- <-]; left; split; reflexivity].
  destruct (i mod 1000 =? 0).
  - destruct (backward rt m0 v) as [m1|e2] eqn:Hb.
    + destruct (step rt m1) as [m2|e3] eqn:Hs; intros [= <- <-]; cbn.
      * eauto.
      * right. exists v. split; [reflexivity|]. split; [reflexivity|]. eauto 8.
    + intros [= <- <-]; cbn. right. exists v.
      split; [reflexivity|]. split; [reflexivity|]. eauto 8.
  - destruct (backward rt m0 v) as [m1|e2] eqn:Hb.
    + destruct (step rt m1) as [m2|e3] eqn:Hs; intros [= <- <-]; cbn.
      * exists v. now rewrite app_nil_r.
      * right. exists v. split; [reflexivity|]. split; [now rewrite app_nil_r|]. eauto 8.
    + intros [= <- <-]; cbn. right. exists v.
      split; [reflexivity|]. split; [now rewrite app_nil_r|]. eauto 8.
Qed.

(** After [n] iterations that returned, from iteration [a] on. *)
Lemma for_in_log (n : nat) :
  forall a s s',
    for_in (seq a n) (iteration rt loss_fn x_ten t_ten) s = (s', Ok tt) ->
    exists vs, length vs = n /\
      loss_values s' = loss_values s ++ vs /\
      stdout s' = stdout s
                  ++ flat_map (fun k => iteration_lines (F := F) (a + k) (nth k vs fzero)) (seq 0 n).
Proof.
  induction n as [|n IH]; intros a s s' Hrun.
  - cbn in Hrun. injection Hrun as <-. exists []. cbn. now rewrite !app_nil_r.
  - rewrite <- cons_seq in Hrun. cbn [for_in] in Hrun. cbv [bind stmt_monad] in Hrun.
    destruct (iteration rt loss_fn x_ten t_ten a s) as [s1 [[]|e]] eqn:Hit;
      [|discriminate Hrun].
    apply iteration_outcome in Hit. destruct Hit as [v [Hl Ho]].
    apply IH in Hrun. destruct Hrun as [vs [Hlen [Hl' Ho']]].
    exists (v :: vs). split; [cbn; now rewrite Hlen|]. split.
    + now rewrite Hl', Hl, <- app_assoc.
    + rewrite Ho', Ho, <- app_assoc. f_equal.
      rewrite <- cons_seq, <- seq_shift. cbn [flat_map nth].
      rewrite Nat.add_0_r. f_equal.
      rewrite flat_map_after_map.
      apply flat_map_ext. intros k. now rewrite Nat.add_succ_r.
Qed.

Lemma printing_iterations :
  filter (fun i => i mod 1000 =? 0) (range training_iter) = map (Nat.mul 1000) (seq 0 20).
Proof. vm_compute. reflexivity. Qed.

Lemma flat_map_filter {A B : Type} (p : A -> bool) (f : A -> B) (l : list A) :
  flat_map (fun x => if p x then [f x] else []) l = map f (filter p l).
Proof.
  induction l as [|x l IH]; cbn; [reflexivity|].
  destruct (p x); cbn; now rewrite IH.
Qed.



End LoopInGeneral.


Lemma failing_backward_run :
  training_loop failing_backward_runtime constant_loss [] [] (fresh tt)
  = ({| u_pinn := tt; loss_values := [fone]; stdout := [IterationLine 0 fone] |},
     Raise (RuntimeError "backward")).
Proof.
  unfold training_loop, range. rewrite training_iter_succ, <- cons_seq.
  apply for_in_first_raises. reflexivity.
Defined.


(* ================================================================= *)
(** * Cell 7 and the loss; [np.linspace] for any arguments *)

Section Composition.

Local Open Scope R_scope.

Context {F : Type} {SF : Scalar F}.
Variable Theta : Type.
Variable rt : Runtime (F := F) Theta.

(** X19. Under the generator's contract cell 7 never raises (none of the
    checks of [qmc.scale] fires), and its two tensors are the rounded
    coordinates of 100 points: abscissas between -1 and 1 in [x_ten], times
    between 0 and 2 in [t_ten].  Having one size, they pass the
    [torch.cat] that opens the loss. *)
Theorem cell_7_returns_compatible_tensors :
  qmc.draws_ok 100 (lhs_draws rt) ->
  exists xs ts : list R,
    cell_7 rt = Ok (map (float_ rt) xs, map (float_ rt) ts) /\
    length xs = 100%nat /\ length ts = 100%nat /\
    Forall (fun x => -1 <= x <= 1) xs /\
    Forall (fun t => 0 <= t <= 2) ts /\
    torch.cat_dim1 (map (float_ rt) ts) (map (float_ rt) xs)
    = Ok (combine (map (float_ rt) ts) (map (float_ rt) xs)).
Proof.
  intros Hok.
  destruct (domain_xt (lhs_draws rt)) as [pts|e] eqn:Hpts;
    [|rewrite (scale_returns Hok) in Hpts; discriminate].
  assert (Hlen : length pts = 100%nat).
  { rewrite (scale_returns Hok) in Hpts. apply Ok_inj in Hpts. subst pts.
    unfold sample, qmc.LatinHypercube_random. now rewrite !length_map, length_seq. }
  assert (Hrow : forall row, In row pts ->
             exists k, (k < 100)%nat /\
               row = [unit_entry (lhs_draws rt) k 0 * (1 - -1) + -1;
                      unit_entry (lhs_draws rt) k 1 * (2 - 0) + 0]).
  { intros row Hin. destruct (In_nth _ _ [] Hin) as [k [Hk <-]].
    exists k. split; [lia|]. apply (domain_row Hok Hpts). lia. }
  exists (np.column pts 0), (np.column pts 1).
  unfold cell_7. rewrite Hpts. cbv [bind ret result_monad].
  split; [reflexivity|]. unfold np.column.
  split; [now rewrite length_map|]. split; [now rewrite length_map|].
  split; [|split].
  - apply Forall_forall. intros x Hx. apply in_map_iff in Hx.
    destruct Hx as [row [<- Hin]]. destruct (Hrow row Hin) as [k [Hk ->]].
    pose proof (unit_entry_range Hok 0 Hk). cbn [nth]. lra.
  - apply Forall_forall. intros t Ht. apply in_map_iff in Ht.
    destruct Ht as [row [<- Hin]]. destruct (Hrow row Hin) as [k [Hk ->]].
    pose proof (unit_entry_range Hok 1 Hk). cbn [nth]. lra.
  - unfold torch.cat_dim1. now rewrite !length_map, Nat.eqb_refl.
Qed.

End Composition.

Lemma cell_7_returns_compatible_tensors_witness :
  exists xs ts : list R,
    cell_7 idle_runtime = Ok (map (float_ idle_runtime) xs, map (float_ idle_runtime) ts) /\
    length xs = 100%nat /\ length ts = 100%nat /\
    Forall (fun x => (-1 <= x <= 1)%R) xs /\
    Forall (fun t => (0 <= t <= 2)%R) ts /\
    torch.cat_dim1 (map (float_ idle_runtime) ts) (map (float_ idle_runtime) xs)
    = Ok (combine (map (float_ idle_runtime) ts) (map (float_ idle_runtime) xs)).
Proof.
  apply (@cell_7_returns_compatible_tensors binary32 unit idle_runtime).
  exact centred_draws_ok.
Defined.

Section Linspace.

Local Open Scope R_scope.


End Linspace.
